(** * GitGenie: the statistics store, the streak machine and the batch scheduler

    A shallow embedding of [src/GitGenie.py]: the [RepositoryStatistics]
    class (load, save, [add_commit], [update_commit_streak],
    [calculate_file_complexity]) and [process_repositories] with its
    rollback loop.  Python dictionaries keyed by strings are [gmap string _],
    Python integers are [Z], Python floats are binary64 primitive floats,
    exceptions are an explicit [Raise] outcome, and everything the program
    obtains from its environment (the clock excepted, which only enters as the
    [timestamp] argument) is an oracle of the [World] record. *)

From Stdlib Require Import ZArith String Ascii List Floats Uint63 Lia Bool.
From stdpp Require Import base option list gmap strings.

Local Open Scope string_scope.
Local Open Scope Z_scope.

(* 0.1 and the like denote the nearest binary64 value, as in Python. *)
Set Warnings "-inexact-float".

(** ** Outcomes of fallible Python code *)

Inductive exn : Type :=
  | ValueError          (* strptime on a string that does not match *)
  | IndexError          (* list index out of range *)
  | FileNotFoundError   (* open(..., 'r') on an absent file *)
  | PermissionError     (* any other OSError raised by open *)
  | JSONDecodeError.    (* json.load on a malformed document *)

Inductive result (A : Type) : Type :=
  | Ok (a : A)
  | Raise (e : exn).
Arguments Ok {A} a.
Arguments Raise {A} e.

Definition is_ok {A} (r : result A) : bool :=
  match r with Ok _ => true | Raise _ => false end.

(** Python numbers as far as the program uses them: [int] and [float]. *)
Inductive number : Type :=
  | Int (z : Z)
  | Float (f : float).

(** ** Calendar dates ([datetime.date])

    The proleptic Gregorian ordinal, as [date.toordinal] computes it. *)

Record date : Type := mkdate { year : Z; month : Z; day : Z }.

Record datetime : Type := mkdatetime {
  dt_date : date;      (* datetime.date() *)
  hour : Z;
  minute : Z;
  second : Z
}.

Definition is_leap (y : Z) : bool :=
  (y mod 4 =? 0) && (negb (y mod 100 =? 0) || (y mod 400 =? 0)).

Definition DAYS_IN_MONTH : list Z :=
  [31; 28; 31; 30; 31; 30; 31; 31; 30; 31; 30; 31].

Definition DAYS_BEFORE_MONTH : list Z :=
  [0; 31; 59; 90; 120; 151; 181; 212; 243; 273; 304; 334].

Definition days_in_month (y m : Z) : Z :=
  if (m =? 2) && is_leap y then 29
  else nth (Z.to_nat (m - 1)) DAYS_IN_MONTH 0.

Definition days_before_year (y : Z) : Z :=
  let y := y - 1 in y * 365 + y / 4 - y / 100 + y / 400.

Definition days_before_month (y m : Z) : Z :=
  nth (Z.to_nat (m - 1)) DAYS_BEFORE_MONTH 0
  + (if (2 <? m) && is_leap y then 1 else 0).

Definition toordinal (d : date) : Z :=
  days_before_year (year d) + days_before_month (year d) (month d) + day d.

(** [date.weekday()]: Monday is 0. *)
Definition weekday (d : date) : Z := (toordinal d + 6) mod 7.

(** What the [date] and [datetime] constructors accept. *)
Definition valid_date (d : date) : bool :=
  (1 <=? year d) && (year d <=? 9999)
  && (1 <=? month d) && (month d <=? 12)
  && (1 <=? day d) && (day d <=? days_in_month (year d) (month d)).

Definition valid_datetime (t : datetime) : bool :=
  valid_date (dt_date t)
  && (0 <=? hour t) && (hour t <=? 23)
  && (0 <=? minute t) && (minute t <=? 59)
  && (0 <=? second t) && (second t <=? 59).

(** ** [strptime] and [strftime]

    Timestamps travel as strings.  The parser below accepts the zero-padded
    form that [strftime] writes, ["YYYY-MM-DD HH:MM:SS"] and ["YYYY-MM-DD"];
    any other string is a [ValueError] here ([None]).  ([strptime] itself also
    accepts a few unpadded spellings of the same fields; they denote the same
    values and are left out of the model.) *)

Definition digit_of_ascii (a : ascii) : option Z :=
  let n := Z.of_N (N_of_ascii a) in
  if (48 <=? n) && (n <=? 57) then Some (n - 48) else None.

Definition ascii_of_digit (d : Z) : ascii :=
  ascii_of_N (Z.to_N (48 + d)).

Fixpoint parse_digits (k : nat) (acc : Z) (s : string) : option (Z * string) :=
  match k with
  | O => Some (acc, s)
  | S k' =>
      match s with
      | String a s' =>
          match digit_of_ascii a with
          | Some d => parse_digits k' (10 * acc + d) s'
          | None => None
          end
      | EmptyString => None
      end
  end.

Definition expect (c : ascii) (s : string) : option string :=
  match s with
  | String a s' => if Ascii.eqb a c then Some s' else None
  | EmptyString => None
  end.

(** The fields of ["%Y-%m-%d"], with what is left of the input. *)
Definition parse_ymd (s : string) : option (date * string) :=
  '(y, s) ← parse_digits 4 0 s;
  s ← expect "-" s;
  '(m, s) ← parse_digits 2 0 s;
  s ← expect "-" s;
  '(d, s) ← parse_digits 2 0 s;
  Some (mkdate y m d, s).

(** [datetime.strptime(s, '%Y-%m-%d').date()] *)
Definition strptime_date (s : string) : option date :=
  '(d, rest) ← parse_ymd s;
  match rest with
  | EmptyString => if valid_date d then Some d else None
  | _ => None
  end.

(** [datetime.strptime(s, '%Y-%m-%d %H:%M:%S')] *)
Definition strptime_datetime (s : string) : option datetime :=
  '(d, s) ← parse_ymd s;
  s ← expect " " s;
  '(h, s) ← parse_digits 2 0 s;
  s ← expect ":" s;
  '(mi, s) ← parse_digits 2 0 s;
  s ← expect ":" s;
  '(se, s) ← parse_digits 2 0 s;
  match s with
  | EmptyString =>
      let t := mkdatetime d h mi se in
      if valid_datetime t then Some t else None
  | _ => None
  end.

Definition pad2 (n : Z) (rest : string) : string :=
  String (ascii_of_digit (n / 10)) (String (ascii_of_digit (n mod 10)) rest).

Definition pad4 (n : Z) (rest : string) : string :=
  String (ascii_of_digit (n / 1000))
    (String (ascii_of_digit (n / 100 mod 10)) (pad2 (n mod 100) rest)).

(** [d.strftime('%Y-%m-%d')], the year zero-filled to four digits. *)
Definition strftime_date (d : date) : string :=
  pad4 (year d) (String "-" (pad2 (month d) (String "-" (pad2 (day d) EmptyString)))).

(** ** The statistics document *)

Record FileStats : Type := mkFileStats {
  commits : Z;
  last_modified : option string;
  changes_per_month : gmap string Z;
  complexity_score : number
}.

Record RepoStats : Type := mkRepoStats {
  repo_total_commits : Z;            (* 'total_commits' of a repository *)
  files : gmap string FileStats;
  last_commit : option string;
  commit_types : gmap string Z;
  active_hours : list Z;
  active_days : list Z
}.

Record CommitStreak : Type := mkCommitStreak {
  current : Z;
  longest : Z;
  last_commit_date : option string
}.

(** The four reserved keys are never written by the program; the type of
    their entries is immaterial. *)
Record Stats : Type := mkStats {
  repositories : gmap string RepoStats;
  total_commits : Z;
  commit_history : list string;
  developer_patterns : gmap string Z;
  most_active_times : gmap string Z;
  file_complexity : gmap string Z;
  commit_streaks : CommitStreak
}.

(** The literal of [load_stats]'s [except] branch. *)
Definition fresh_stats : Stats :=
  {| repositories := ∅;
     total_commits := 0;
     commit_history := [];
     developer_patterns := ∅;
     most_active_times := ∅;
     file_complexity := ∅;
     commit_streaks := {| current := 0; longest := 0; last_commit_date := None |} |}.

Definition set_commit_streaks (cs : CommitStreak) (st : Stats) : Stats :=
  {| repositories := repositories st;
     total_commits := total_commits st;
     commit_history := commit_history st;
     developer_patterns := developer_patterns st;
     most_active_times := most_active_times st;
     file_complexity := file_complexity st;
     commit_streaks := cs |}.

(** ** [update_commit_streak] *)

(** Truth value of [stats['commit_streaks']['last_commit_date']]: [None] and
    the empty string are false. *)
Definition truthy (v : option string) : bool :=
  match v with
  | None => false
  | Some EmptyString => false
  | Some _ => true
  end.

(** Lines 250-256: [last_date], or the [ValueError] of [strptime]. *)
Definition stored_last_date (cs : CommitStreak) : result (option date) :=
  match last_commit_date cs with
  | Some s =>
      if truthy (Some s) then
        match strptime_date s with
        | Some d => Ok (Some d)
        | None => Raise ValueError
        end
      else Ok None
  | None => Ok None
  end.

(** Lines 258-269: the branches on [days_diff]. *)
Definition streak_counters (current_date : date) (last_date : option date)
    (cs : CommitStreak) : CommitStreak :=
  match last_date with
  | Some ld =>
      let days_diff := toordinal current_date - toordinal ld in
      if days_diff =? 1 then
        let c := current cs + 1 in
        {| current := c;
           longest := Z.max (longest cs) c;
           last_commit_date := last_commit_date cs |}
      else if 1 <? days_diff then
        {| current := 1;
           longest := longest cs;
           last_commit_date := last_commit_date cs |}
      else cs
  | None =>
      {| current := 1;
         longest := longest cs;
         last_commit_date := last_commit_date cs |}
  end.

Definition update_commit_streak (timestamp : string) (st : Stats) : result Stats :=
  match strptime_datetime timestamp with
  | None => Raise ValueError
  | Some t =>
      let current_date := dt_date t in
      match stored_last_date (commit_streaks st) with
      | Raise e => Raise e
      | Ok last_date =>
          let cs := streak_counters current_date last_date (commit_streaks st) in
          Ok (set_commit_streaks
                {| current := current cs;
                   longest := longest cs;
                   last_commit_date := Some (strftime_date current_date) |}
                st)
      end
  end.

(** ** [load_stats] and [save_stats]

    The file [repository_stats.json] as the program can find it.  A document
    that [json.load] accepts is identified with the [Stats] value it denotes,
    and [json.dump] writes that value back. *)

Inductive stats_file : Type :=
  | NoFile                    (* the path does not exist *)
  | Unreadable                (* open raises another OSError *)
  | Malformed                 (* the content is not JSON *)
  | Document (doc : Stats).

Record Disk : Type := mkDisk {
  stored : stats_file;
  writable : bool             (* whether open(stats_file, 'w') succeeds *)
}.

(** Lines 184-185: [open] followed by [json.load]. *)
Definition read_json (d : Disk) : result Stats :=
  match stored d with
  | NoFile => Raise FileNotFoundError
  | Unreadable => Raise PermissionError
  | Malformed => Raise JSONDecodeError
  | Document doc => Ok doc
  end.

(** The [try] with its single handler, [except FileNotFoundError]. *)
Definition load_stats (d : Disk) : result Stats :=
  match read_json d with
  | Raise FileNotFoundError => Ok fresh_stats
  | r => r
  end.

Definition save_stats (st : Stats) (d : Disk) : Disk * result unit :=
  if writable d
  then ({| stored := Document st; writable := true |}, Ok tt)
  else (d, Raise PermissionError).

(** ** [add_commit] *)

(** The dictionary literals of lines 210-217 and 225-230. *)
Definition new_repo : RepoStats :=
  {| repo_total_commits := 0;
     files := ∅;
     last_commit := None;
     commit_types := ∅;
     active_hours := replicate 24 0;
     active_days := replicate 7 0 |}.

Definition new_file : FileStats :=
  {| commits := 0;
     last_modified := None;
     changes_per_month := ∅;
     complexity_score := Int 0 |}.

(** [l[i] += 1] on a Python list: a negative index counts from the end, an
    index outside the list raises [IndexError] ([None]). *)
Definition py_position (i : Z) (l : list Z) : option nat :=
  let n := Z.of_nat (length l) in
  if (0 <=? i) && (i <? n) then Some (Z.to_nat i)
  else if (- n <=? i) && (i <? 0) then Some (Z.to_nat (n + i))
  else None.

Definition list_incr (i : Z) (l : list Z) : option (list Z) :=
  k ← py_position i l;
  Some (alter (λ x, x + 1) k l).

Definition touch_repo (timestamp : string) (r : RepoStats) : RepoStats :=
  {| repo_total_commits := repo_total_commits r + 1;
     files := files r;
     last_commit := Some timestamp;
     commit_types := commit_types r;
     active_hours := active_hours r;
     active_days := active_days r |}.

Definition touch_file (timestamp : string) (f : FileStats) : FileStats :=
  {| commits := commits f + 1;
     last_modified := Some timestamp;
     changes_per_month := changes_per_month f;
     complexity_score := complexity_score f |}.

Definition set_files (fs : gmap string FileStats) (r : RepoStats) : RepoStats :=
  {| repo_total_commits := repo_total_commits r;
     files := fs;
     last_commit := last_commit r;
     commit_types := commit_types r;
     active_hours := active_hours r;
     active_days := active_days r |}.

Definition set_active_hours (hs : list Z) (r : RepoStats) : RepoStats :=
  {| repo_total_commits := repo_total_commits r;
     files := files r;
     last_commit := last_commit r;
     commit_types := commit_types r;
     active_hours := hs;
     active_days := active_days r |}.

Definition set_active_days (ds : list Z) (r : RepoStats) : RepoStats :=
  {| repo_total_commits := repo_total_commits r;
     files := files r;
     last_commit := last_commit r;
     commit_types := commit_types r;
     active_hours := active_hours r;
     active_days := ds |}.

Definition set_repositories (rs : gmap string RepoStats) (st : Stats) : Stats :=
  {| repositories := rs;
     total_commits := total_commits st;
     commit_history := commit_history st;
     developer_patterns := developer_patterns st;
     most_active_times := most_active_times st;
     file_complexity := file_complexity st;
     commit_streaks := commit_streaks st |}.

Definition incr_total_commits (st : Stats) : Stats :=
  {| repositories := repositories st;
     total_commits := total_commits st + 1;
     commit_history := commit_history st;
     developer_patterns := developer_patterns st;
     most_active_times := most_active_times st;
     file_complexity := file_complexity st;
     commit_streaks := commit_streaks st |}.

(** [repo_stats] is a reference into [self.stats]: whatever has been assigned
    through it is in the store when an exception leaves the method.
    [store_repo] writes the local view back. *)
Definition store_repo (repo_path : string) (r : RepoStats) (st : Stats) : Stats :=
  set_repositories (<[repo_path := r]> (repositories st)) st.

(** The method returns the object's [stats], the disk, and [Ok tt] or the
    exception that left it.  [commit_type] is a parameter the body never
    reads. *)
Definition add_commit (repo_path file_path commit_type timestamp : string)
    (st : Stats) (disk : Disk) : Stats * Disk * result unit :=
  (* lines 209-221 *)
  let r := default new_repo (repositories st !! repo_path) in
  let r := touch_repo timestamp r in
  (* lines 224-234 *)
  let f := default new_file (files r !! file_path) in
  let f := touch_file timestamp f in
  let r := set_files (<[file_path := f]> (files r)) r in
  (* lines 237-240 *)
  match strptime_datetime timestamp with
  | None => (store_repo repo_path r st, disk, Raise ValueError)
  | Some t =>
      let commit_hour := hour t in
      let commit_day := weekday (dt_date t) in
      match list_incr commit_hour (active_hours r) with
      | None => (store_repo repo_path r st, disk, Raise IndexError)
      | Some hs =>
          let r := set_active_hours hs r in
          match list_incr commit_day (active_days r) with
          | None => (store_repo repo_path r st, disk, Raise IndexError)
          | Some ds =>
              let r := set_active_days ds r in
              (* lines 243-245 *)
              let st := incr_total_commits (store_repo repo_path r st) in
              match update_commit_streak timestamp st with
              | Raise e => (st, disk, Raise e)
              | Ok st =>
                  let '(disk, res) := save_stats st disk in
                  (st, disk, res)
              end
          end
      end
  end.

(** A call of [add_commit], and a sequence of calls on one object.  The object
    outlives a call that raised, so the sequence goes on from whatever the
    failed call left in memory. *)
Record commit_call : Type := mkCall {
  call_repo : string;
  call_file : string;
  call_type : string;
  call_timestamp : string
}.

Definition record_call (c : commit_call) (sd : Stats * Disk) : Stats * Disk :=
  fst (add_commit (call_repo c) (call_file c) (call_type c) (call_timestamp c)
         (fst sd) (snd sd)).

Definition record_all (cs : list commit_call) (sd : Stats * Disk) : Stats * Disk :=
  foldl (λ sd c, record_call c sd) sd cs.

(** The streak machine alone, fed a sequence of timestamps; [None] when an
    update raises. *)
Fixpoint streak_run (timestamps : list string) (st : Stats) : option Stats :=
  match timestamps with
  | [] => Some st
  | ts :: rest =>
      match update_commit_streak ts st with
      | Ok st' => streak_run rest st'
      | Raise _ => None
      end
  end.

(** ** [calculate_file_complexity]

    The text of a file is the list of its code points.  The two character
    tables behind the classes [\s] and [\w] of [re] ([str.isspace],
    [str.isalnum]) belong to the Python runtime and are parameters. *)

Abbreviation text := (list N).

(** The code points of an ASCII literal. *)
Definition codepoints (s : string) : text :=
  map N_of_ascii (list_ascii_of_string s).

Inductive item : Type :=
  | Lit (l : text)                 (* the characters of [l], in order *)
  | OneOf (alts : list text)       (* (a|b): the alternatives, first to last *)
  | CharSet (c : N → bool)         (* one character of a class *)
  | Star (c : N → bool)            (* c*, greedy *)
  | Plus (c : N → bool).           (* c+, greedy *)

Fixpoint match_lit (l s : text) : option text :=
  match l, s with
  | [], _ => Some s
  | a :: l', b :: s' => if N.eqb a b then match_lit l' s' else None
  | _ :: _, [] => None
  end.

(** Zero or more characters of class [c], as many as possible first, giving
    one back at a time for as long as the rest of the pattern [k] fails. *)
Fixpoint greedy (c : N → bool) (k : text → option text) (s : text) : option text :=
  match s with
  | a :: s' =>
      if c a then
        match greedy c k s' with
        | Some rest => Some rest
        | None => k s
        end
      else k s
  | [] => k s
  end.

Fixpoint first_alt (alts : list text) (k : text → option text) (s : text) : option text :=
  match alts with
  | [] => None
  | l :: alts' =>
      match match_lit l s ≫= k with
      | Some rest => Some rest
      | None => first_alt alts' k s
      end
  end.

(** The backtracking match of a pattern at the head of [s]: what follows the
    match, or [None]. *)
Fixpoint match_here (p : list item) (s : text) : option text :=
  match p with
  | [] => Some s
  | Lit l :: p' => match_lit l s ≫= match_here p'
  | OneOf alts :: p' => first_alt alts (match_here p') s
  | CharSet c :: p' =>
      match s with
      | a :: s' => if c a then match_here p' s' else None
      | [] => None
      end
  | Star c :: p' => greedy c (match_here p') s
  | Plus c :: p' =>
      match s with
      | a :: s' => if c a then greedy c (match_here p') s' else None
      | [] => None
      end
  end.

(** [len(re.findall(p, s))]: the matches are searched from left to right and
    do not overlap; [skip] characters of the last match are still to be
    passed.  None of the four patterns matches the empty string. *)
Fixpoint findall_count (p : list item) (skip : nat) (s : text) : Z :=
  match s with
  | [] => 0
  | _ :: s' =>
      match skip with
      | S k => findall_count p k s'
      | O =>
          match match_here p s with
          | Some rest => 1 + findall_count p (length s - length rest - 1) s'
          | None => findall_count p 0 s'
          end
      end
  end.

(** The line boundaries of [str.splitlines]. *)
Definition is_linebreak (c : N) : bool :=
  bool_decide (c ∈ [10; 11; 12; 13; 28; 29; 30; 133; 8232; 8233]%N).

(** [s.splitlines()]; [line] is the current line, last character first.  A
    carriage return followed by a line feed is one boundary. *)
Fixpoint splitlines (line : text) (s : text) : list text :=
  match s with
  | [] => match line with [] => [] | _ => [rev line] end
  | c :: s' =>
      if is_linebreak c then
        match c, s' with
        | 13%N, 10%N :: s'' => rev line :: splitlines [] s''
        | _, _ => rev line :: splitlines [] s'
        end
      else splitlines (c :: line) s'
  end.

(** [float(z)] for the integers the method meets, which are counts of matches
    and lines times at most 3 (exact below 2^53, rounded to nearest up to
    2^63). *)
Definition float_of_int (z : Z) : float := PrimFloat.of_uint63 (Uint63.of_Z z).

(** The weighted sum as the specification words it, on five counts. *)
Definition weighted_score (lines functions classes conditionals loops : Z) : float :=
  (float_of_int lines * 0.1
   + float_of_int (functions * 2)
   + float_of_int (classes * 3)
   + float_of_int conditionals * 1.5
   + float_of_int (loops * 2))%float.

(** Python's [==] between a number and the integer 0. *)
Definition equals_zero (x : number) : bool :=
  match x with
  | Int z => z =? 0
  | Float f => PrimFloat.eqb f 0%float
  end.

Section Complexity.

Variables isspace isalnum : N → bool.

Definition class_s : N → bool := isspace.
Definition class_w (c : N) : bool := isalnum c || N.eqb c 95.

(** r'def\s+\w+\s*\(' *)
Definition re_function : list item :=
  [Lit (codepoints "def"); Plus class_s; Plus class_w; Star class_s;
   Lit (codepoints "(")].

(** r'class\s+\w+\s*[:\(]' *)
Definition re_class : list item :=
  [Lit (codepoints "class"); Plus class_s; Plus class_w; Star class_s;
   CharSet (λ c, N.eqb c 58 || N.eqb c 40)].

(** r'\s+if\s+' *)
Definition re_conditional : list item :=
  [Plus class_s; Lit (codepoints "if"); Plus class_s].

(** r'\s+(for|while)\s+' *)
Definition re_loop : list item :=
  [Plus class_s; OneOf [codepoints "for"; codepoints "while"]; Plus class_s].

Record complexity : Type := mkComplexity {
  c_lines : Z;
  c_functions : Z;
  c_classes : Z;
  c_conditionals : Z;
  c_loops : Z
}.

(** The dictionary of lines 280-286. *)
Definition scan (content : text) : complexity :=
  {| c_lines := Z.of_nat (length (splitlines [] content));
     c_functions := findall_count re_function 0 content;
     c_classes := findall_count re_class 0 content;
     c_conditionals := findall_count re_conditional 0 content;
     c_loops := findall_count re_loop 0 content |}.

(** [read file_path] is [open(file_path, 'r')] followed by [f.read()]: the
    decoded text, or the exception.  Every exception is caught and turned
    into the integer 0. *)
Definition calculate_file_complexity (read : string → result text)
    (file_path : string) : number :=
  match read file_path with
  | Raise _ => Int 0
  | Ok content =>
      let complexity := scan content in
      let score :=
        (float_of_int (c_lines complexity) * 0.1
         + float_of_int (c_functions complexity * 2)
         + float_of_int (c_classes complexity * 3)
         + float_of_int (c_conditionals complexity) * 1.5
         + float_of_int (c_loops complexity * 2))%float in
      Float score
  end.

End Complexity.

(** The two tables on the ASCII range, where they are fixed: white space is
    tab to carriage return, the four separators 28-31 and the space. *)
Definition ascii_isspace (c : N) : bool :=
  ((9 <=? c) && (c <=? 13) || (28 <=? c) && (c <=? 32))%N.

Definition ascii_isalnum (c : N) : bool :=
  ((48 <=? c) && (c <=? 57) || (65 <=? c) && (c <=? 90)
   || (97 <=? c) && (c <=? 122))%N.

(** ** [process_repositories]

    What the batch obtains from outside: the verdicts of [git push --dry-run],
    the answers typed at the three prompts (after [strip().lower()], the
    second one after [int]), the draws of [random], and the outcomes of the
    git commands behind [git_commit] and [reset_changes]. *)

Record World : Type := mkWorld {
  disk : Disk;
  check_access : string → bool;
  reply_commit_control : string;
  reply_total : Z;
  reply_keep : string;
  randint : nat → Z → Z → Z;            (* the k-th random.randint(a, b) *)
  sample : list string → Z → list string; (* random.sample(population, k) *)
  expovariate_floor : nat → Z;          (* math.floor of the k-th expovariate *)
  git_commit : nat → string → bool;     (* truth of the k-th git_commit(repo, _) *)
  git_reset : string → Z → bool         (* the commands of reset_changes at HEAD~n *)
}.

Inductive level : Type := INFO | ERROR.

Inductive message : Type :=
  | CheckingAccess (repo : string)            (* line 659 *)
  | AccessDenied (repo : string)              (* line 663 *)
  | NoAvailableRepos                          (* line 666 *)
  | SelectedCount (n : Z)                     (* lines 676, 711 *)
  | SelectedRepo (repo : string)              (* lines 678, 713 *)
  | Processing (repo : string) (count : Z)    (* lines 691, 717 *)
  | CommitDone (n : Z)                        (* lines 702, 728 *)
  | CommitFailed (j : Z)                      (* lines 704, 730 *)
  | ResetDone (repo : string)                 (* line 641 *)
  | ResetFailed (repo : string)               (* line 644 *)
  | RollbackDone (repo : string)              (* line 741 *)
  | RollbackFailed (repo : string)            (* line 743 *)
  | FileStatsHeader                           (* line 749 *)
  | TotalCommits (n : Z).                     (* line 752 *)

Inductive prompt : Type := AskCommitControl | AskTotal | AskKeep.

Inductive event : Type :=
  | Log (lvl : level) (m : message)
  | CheckAccess (repo : string) (verdict : bool)
  | Input (p : prompt)
  | GitCommit (repo : string) (ok : bool)
  | ResetChanges (repo : string) (n : Z) (ok : bool).

(** The variables of a batch, with the events so far in order of
    occurrence. *)
Record Run : Type := mkRun {
  changes_made : Z;
  processed_repos : list string;
  n_randint : nat;
  n_expovariate : nat;
  n_git_commit : nat;
  trace : list event
}.

Definition start : Run :=
  {| changes_made := 0; processed_repos := []; n_randint := 0;
     n_expovariate := 0; n_git_commit := 0; trace := [] |}.

Definition emit (e : event) (s : Run) : Run :=
  {| changes_made := changes_made s;
     processed_repos := processed_repos s;
     n_randint := n_randint s;
     n_expovariate := n_expovariate s;
     n_git_commit := n_git_commit s;
     trace := trace s ++ [e] |}.

Definition log (lvl : level) (m : message) (s : Run) : Run := emit (Log lvl m) s.

Definition draw_randint (w : World) (a b : Z) (s : Run) : Z * Run :=
  (randint w (n_randint s) a b,
   {| changes_made := changes_made s;
      processed_repos := processed_repos s;
      n_randint := S (n_randint s);
      n_expovariate := n_expovariate s;
      n_git_commit := n_git_commit s;
      trace := trace s |}).

(** [1 + min(49, math.floor(random.expovariate(1/3)))] *)
Definition calculate_commits (w : World) (s : Run) : Z * Run :=
  (1 + Z.min 49 (expovariate_floor w (n_expovariate s)),
   {| changes_made := changes_made s;
      processed_repos := processed_repos s;
      n_randint := n_randint s;
      n_expovariate := S (n_expovariate s);
      n_git_commit := n_git_commit s;
      trace := trace s |}).

(** One call of [git_commit] and the bookkeeping of lines 699-701. *)
Definition call_git_commit (w : World) (repo_path : string) (s : Run) : bool * Run :=
  let ok := git_commit w (n_git_commit s) repo_path in
  (ok,
   {| changes_made := if ok then changes_made s + 1 else changes_made s;
      processed_repos :=
        if ok then processed_repos s ++ [repo_path] else processed_repos s;
      n_randint := n_randint s;
      n_expovariate := n_expovariate s;
      n_git_commit := S (n_git_commit s);
      trace := trace s ++ [GitCommit repo_path ok] |}).

(** [for j in range(commits_this_repo)], [todo] iterations left: a failed
    commit leaves the loop. *)
Fixpoint commit_loop (w : World) (repo_path : string) (todo : nat) (j : Z)
    (s : Run) : Run :=
  match todo with
  | O => s
  | S todo' =>
      let '(ok, s) := call_git_commit w repo_path s in
      if ok
      then commit_loop w repo_path todo' (j + 1) (log INFO (CommitDone (changes_made s)) s)
      else log ERROR (CommitFailed (j + 1)) s
  end.

(** Lines 658-663. *)
Fixpoint access_loop (w : World) (repositories : list string)
    (available_repos : list string) (s : Run) : list string * Run :=
  match repositories with
  | [] => (available_repos, s)
  | repo_path :: rest =>
      let s := log INFO (CheckingAccess repo_path) s in
      let ok := check_access w repo_path in
      let s := emit (CheckAccess repo_path ok) s in
      if ok
      then access_loop w rest (available_repos ++ [repo_path]) s
      else access_loop w rest available_repos (log ERROR (AccessDenied repo_path) s)
  end.

(** Lines 673-678 and 708-713. *)
Definition select_repos (w : World) (available_repos : list string) (s : Run)
    : list string * Run :=
  let '(num_repos, s) := draw_randint w 1 (Z.of_nat (length available_repos)) s in
  let selected_repos := sample w available_repos num_repos in
  let s := log INFO (SelectedCount num_repos) s in
  (selected_repos, foldl (λ s repo, log INFO (SelectedRepo repo) s) s selected_repos).

(** Lines 680-705: [len] is [len(selected_repos)], [i] the index of the head
    of [repos] in it. *)
Fixpoint budget_loop (w : World) (len i : Z) (repos : list string)
    (remaining_commits : Z) (s : Run) : Run :=
  match repos with
  | [] => s
  | repo_path :: rest =>
      if i =? len - 1 then
        let commits_this_repo := remaining_commits in
        let s := log INFO (Processing repo_path commits_this_repo) s in
        let s := commit_loop w repo_path (Z.to_nat commits_this_repo) 0 s in
        budget_loop w len (i + 1) rest remaining_commits s
      else
        let max_commits :=
          Z.min (remaining_commits - (len - i - 1)) (remaining_commits - 1) in
        if max_commits <=? 0 then
          budget_loop w len (i + 1) rest remaining_commits s
        else
          let '(commits_this_repo, s) := draw_randint w 1 max_commits s in
          let remaining_commits := remaining_commits - commits_this_repo in
          let s := log INFO (Processing repo_path commits_this_repo) s in
          let s := commit_loop w repo_path (Z.to_nat commits_this_repo) 0 s in
          budget_loop w len (i + 1) rest remaining_commits s
  end.

(** Lines 715-731. *)
Fixpoint random_loop (w : World) (repos : list string) (s : Run) : Run :=
  match repos with
  | [] => s
  | repo_path :: rest =>
      let '(commit_count_local, s) := calculate_commits w s in
      let s := log INFO (Processing repo_path commit_count_local) s in
      random_loop w rest (commit_loop w repo_path (Z.to_nat commit_count_local) 0 s)
  end.

(** [reset_changes]: the three git commands succeed or one of them raises
    [CalledProcessError]; the revision is [HEAD~changes_made], with the
    batch-wide counter. *)
Definition reset_changes (w : World) (repo_path : string) (s : Run) : bool * Run :=
  let ok := git_reset w repo_path (changes_made s) in
  let s := emit (ResetChanges repo_path (changes_made s) ok) s in
  (ok, if ok then log INFO (ResetDone repo_path) s
       else log ERROR (ResetFailed repo_path) s).

(** Lines 739-743, over the elements of [set(processed_repos)] in the order
    the set yields them. *)
Fixpoint rollback_loop (w : World) (repos : list string) (s : Run) : Run :=
  match repos with
  | [] => s
  | repo_path :: rest =>
      let '(ok, s) := reset_changes w repo_path s in
      rollback_loop w rest
        (if ok then log INFO (RollbackDone repo_path) s
         else log ERROR (RollbackFailed repo_path) s)
  end.

(** The elements of [set(l)].  Python fixes no order for them; the order of
    [elements] stands for whichever it is. *)
Definition py_set (l : list string) : list string :=
  elements (list_to_set l : gset string).

(** What a call leaves behind: how it ended, the batch variables with the
    trace, the module global [total_commits], the [stats] object it created
    and the disk. *)
Record Outcome : Type := mkOutcome {
  returned : result unit;
  final : Run;
  global_total_commits : Z;
  stats_object : option Stats;
  final_disk : Disk
}.

(** Lines 733-752.  The module global [file_commit_counts] is empty and never
    written, so the loop of line 750 has no iteration. *)
Definition conclude (w : World) (total_commits0 : Z) (s : Run) : Z * Run :=
  let '(total, s) :=
    if 0 <? changes_made s then
      let s := emit (Input AskKeep) s in
      if negb (String.eqb (reply_keep w) "да")
      then (0, rollback_loop w (py_set (processed_repos s)) s)
      else (changes_made s, s)
    else (total_commits0, s) in
  (total, log INFO (TotalCommits total) (log INFO FileStatsHeader s)).

Definition process_repositories (w : World) (repositories : list string)
    (total_commits0 : Z) : Outcome :=
  match load_stats (disk w) with
  | Raise e =>
      {| returned := Raise e; final := start;
         global_total_commits := total_commits0;
         stats_object := None; final_disk := disk w |}
  | Ok stats =>
      let '(available_repos, s) := access_loop w repositories [] start in
      match available_repos with
      | [] =>
          {| returned := Ok tt;
             final := log ERROR NoAvailableRepos s;
             global_total_commits := total_commits0;
             stats_object := Some stats; final_disk := disk w |}
      | _ :: _ =>
          let s := emit (Input AskCommitControl) s in
          let s :=
            if String.eqb (reply_commit_control w) "да" then
              let s := emit (Input AskTotal) s in
              let total_commit_input := reply_total w in
              let '(selected_repos, s) := select_repos w available_repos s in
              budget_loop w (Z.of_nat (length selected_repos)) 0 selected_repos
                total_commit_input s
            else
              let '(selected_repos, s) := select_repos w available_repos s in
              random_loop w selected_repos s in
          let '(total, s) := conclude w total_commits0 s in
          {| returned := Ok tt; final := s;
             global_total_commits := total;
             stats_object := Some stats; final_disk := disk w |}
      end
  end.

(** *** Readings of a trace *)

(** The counts announced by line 691 or 717, repository by repository. *)
Definition allocations (t : list event) : list (string * Z) :=
  omap (λ e, match e with
             | Log INFO (Processing repo count) => Some (repo, count)
             | _ => None
             end) t.

(** The repositories of the calls of [git_commit], successful or not. *)
Definition commit_attempts (t : list event) : list string :=
  omap (λ e, match e with GitCommit repo _ => Some repo | _ => None end) t.

(** The repositories of the successful commits, one entry per commit. *)
Definition successful_commits (t : list event) : list string :=
  omap (λ e, match e with GitCommit repo true => Some repo | _ => None end) t.

(** The repositories [reset_changes] was called on, one entry per call. *)
Definition rollbacks (t : list event) : list string :=
  omap (λ e, match e with ResetChanges repo _ _ => Some repo | _ => None end) t.

Definition prompts (t : list event) : list prompt :=
  omap (λ e, match e with Input p => Some p | _ => None end) t.

(** ** Shape of a store

    A repository entry has its 24 hour counters and 7 day counters, and the
    stored date of the streak, when there is one, is a date: what
    [add_commit] builds, and what it needs of a loaded document to run to
    its end. *)

Definition wf_repo (r : RepoStats) : Prop :=
  length (active_hours r) = 24%nat ∧ length (active_days r) = 7%nat.

Definition wf_stats (st : Stats) : Prop :=
  map_Forall (λ _ r, wf_repo r) (repositories st)
  ∧ is_ok (stored_last_date (commit_streaks st)) = true.

#[global] Instance wf_repo_dec (r : RepoStats) : Decision (wf_repo r).
Proof. unfold wf_repo. apply _. Defined.

#[global] Instance wf_stats_dec (st : Stats) : Decision (wf_stats st).
Proof. unfold wf_stats. apply _. Defined.

(** The three fields no statement of [add_commit] assigns, at their initial
    values throughout a store. *)
Definition file_untouched (f : FileStats) : Prop :=
  changes_per_month f = ∅ ∧ complexity_score f = Int 0.

Definition repo_untouched (r : RepoStats) : Prop :=
  commit_types r = ∅ ∧ map_Forall (λ _ f, file_untouched f) (files r).

Definition never_written (st : Stats) : Prop :=
  map_Forall (λ _ r, repo_untouched r) (repositories st).

(** [sum(counts)] *)
Definition total_of (counts : list Z) : Z := foldr Z.add 0 counts.

(** What [random.randint(a, b)] promises of its result. *)
Definition randint_in_range (w : World) : Prop :=
  ∀ (k : nat) (a b : Z), a <= b → a <= randint w k a b <= b.

(** The entry of the repository once [add_commit] has run to its end. *)
Definition recorded_repo (file_path timestamp : string) (t : datetime)
    (r0 : RepoStats) : RepoStats :=
  {| repo_total_commits := repo_total_commits r0 + 1;
     files :=
       <[file_path := touch_file timestamp (default new_file (files r0 !! file_path))]>
         (files r0);
     last_commit := Some timestamp;
     commit_types := commit_types r0;
     active_hours := alter (λ x, x + 1) (Z.to_nat (hour t)) (active_hours r0);
     active_days :=
       alter (λ x, x + 1) (Z.to_nat (weekday (dt_date t))) (active_days r0) |}.

(** The bookkeeping of a batch agrees with what happened: [processed_repos]
    lists the successful commits, [changes_made] counts them, and nothing
    has been rolled back yet. *)
Definition settled (s : Run) : Prop :=
  processed_repos s = successful_commits (trace s)
  ∧ rollbacks (trace s) = []
  ∧ changes_made s = Z.of_nat (length (processed_repos s)).

(** Events other than a commit or a reset. *)
Definition silent (e : event) : bool :=
  match e with
  | GitCommit _ _ | ResetChanges _ _ _ => false
  | _ => true
  end.

(** No commit, no reset and no prompt so far. *)
Definition untouched_run (s : Run) : Prop :=
  commit_attempts (trace s) = []
  ∧ rollbacks (trace s) = []
  ∧ prompts (trace s) = []
  ∧ changes_made s = 0
  ∧ successful_commits (trace s) = [].

(** What the streak fields do satisfy from the fresh store on. *)
Definition streak_bounded (cs : CommitStreak) : Prop :=
  current cs <= longest cs ∨ current cs = 1.

(** ** Further readings of the code *)




Definition calls_for_repo (repo_path : string) (calls : list commit_call) : Z :=
  Z.of_nat (length (filter (λ c, call_repo c = repo_path) calls)).

Definition calls_for_file (repo_path file_path : string)
    (calls : list commit_call) : Z :=
  Z.of_nat (length (filter (λ c, call_repo c = repo_path ∧ call_file c = file_path)
                      calls)).


(** The entry of a repository, or the zeroed one when it has none yet; the
    same for a file of a repository. *)
Definition repo_entry (st : Stats) (repo_path : string) : RepoStats :=
  default new_repo (repositories st !! repo_path).

Definition file_entry (st : Stats) (repo_path file_path : string) : FileStats :=
  default new_file (files (repo_entry st repo_path) !! file_path).

(** The calls of [reset_changes] with the number of commits each one went
    back by ([HEAD~n]). *)
Definition reset_calls (t : list event) : list (string * Z) :=
  omap (λ e, match e with ResetChanges repo n _ => Some (repo, n) | _ => None end) t.

(** The candidates put to [check_access], with the verdicts. *)
Definition access_checks (t : list event) : list (string * bool) :=
  omap (λ e, match e with CheckAccess repo ok => Some (repo, ok) | _ => None end) t.

(** [HumanBehaviorSimulator.get_commit_delay] *)
Definition get_commit_delay (w : World) (s : Run) : Z * Run :=
  let '(base_delay, s) := draw_randint w 1 5 s in
  let '(variation, s) := draw_randint w (-1) 1 s in
  (base_delay + variation, s).

(** The number of calls of [git_commit] that succeed in a row from the
    [k]-th call on, [todo] at most. *)
Fixpoint leading_successes (w : World) (repo_path : string) (k : nat)
    (todo : nat) : nat :=
  match todo with
  | O => O
  | S todo' =>
      if git_commit w k repo_path
      then S (leading_successes w repo_path (S k) todo')
      else O
  end.

(** ** [get_comment], [get_language] and the files [git_commit] picks from *)

(** [comments.get(language, "# General update")] *)
Definition get_comment (language : string) : string :=
  if String.eqb language "python" then "# Refactored function for better performance"
  else if String.eqb language "sql" then "-- Optimized query for faster response"
  else if String.eqb language "cpp" then "// Improved memory management in loop"
  else if String.eqb language "kotlin" then "// Enhanced null-safety check"
  else if String.eqb language "swift" then "// Updated UI component initialization"
  else "# General update".

(** [extension_of p] is [os.path.splitext(p)[1].lower()], a computation of
    the Python library. *)
Definition get_language (extension_of : string → string) (file_path : string)
    : string :=
  let extension := extension_of file_path in
  if String.eqb extension ".py" then "python"
  else if String.eqb extension ".sql" then "sql"
  else if bool_decide (extension ∈ [".cpp"; ".hpp"; ".cxx"; ".h"]) then "cpp"
  else if bool_decide (extension ∈ [".kt"; ".kts"]) then "kotlin"
  else if String.eqb extension ".swift" then "swift"
  else "unknown".

(** Line 129, and the test of line 133 on a file name. *)
Definition supported_exts : list string :=
  [".py"; ".sql"; ".cpp"; ".hpp"; ".cxx"; ".h"; ".kt"; ".kts"; ".swift"].

Definition supported (extension_of : string → string) (file : string) : bool :=
  bool_decide (extension_of file ∈ supported_exts).

(** ** The peak of [generate_report]

    [l.index(max(l))] of lines 316-317: [max] of an empty list raises
    [ValueError]; [index] returns the first position of the value. *)

Fixpoint list_max (l : list Z) : option Z :=
  match l with
  | [] => None
  | x :: l' =>
      match list_max l' with
      | None => Some x
      | Some m => Some (if m <? x then x else if x <? m then m else x)
      end
  end.

Fixpoint list_index (x : Z) (l : list Z) : option nat :=
  match l with
  | [] => None
  | y :: l' => if y =? x then Some O else S <$> list_index x l'
  end.

Definition peak (l : list Z) : result nat :=
  match list_max l with
  | None => Raise ValueError
  | Some m =>
      match list_index m l with
      | Some i => Ok i
      | None => Raise ValueError
      end
  end.

(** ** [make_minimal_change]

    A path of the file system holds a text (what [read] returns once decoded,
    line ends as ["\n"]) and may refuse to be opened for reading (a
    directory, a missing permission, bytes that do not decode) or for
    writing; both refusals are exceptions of [open], caught by the
    [except Exception] of the function. *)

Record textfile : Type := mkTextfile {
  file_text : string;
  file_readable : bool;
  file_writable : bool
}.

Definition newline : ascii := "010"%char.

(** [f.readlines()]: the lines with their line ends; the last one may have
    none. *)
Fixpoint readlines (s : string) : list string :=
  match s with
  | EmptyString => []
  | String c s' =>
      if Ascii.eqb c newline then String c EmptyString :: readlines s'
      else
        match readlines s' with
        | [] => [String c EmptyString]
        | l :: ls => String c l :: ls
        end
  end.

(** [f.writelines(lines)] on a file opened with ['w']: the strings one after
    the other. *)
Definition writelines (lines : list string) : string :=
  foldr String.append EmptyString lines.

(** [l.insert(i, x)]: a negative index counts from the end, and an index past
    either end is brought back to it. *)
Definition py_insert {A : Type} (i : Z) (x : A) (l : list A) : list A :=
  let n := Z.of_nat (length l) in
  let k := if i <? 0 then Z.max 0 (i + n) else Z.min i n in
  take (Z.to_nat k) l ++ x :: drop (Z.to_nat k) l.

(** The line the function adds: f"\n{comment} - {timestamp}\n". *)
Definition inserted_line (language now : string) : string :=
  String newline
    (String.append (get_comment language)
       (String.append " - " (String.append now (String newline EmptyString)))).

(** What the function logs: lines 67, 86 and 89. *)
Inductive change_report : Type :=
  | FileMissing (file_path : string)
  | FileChanged (file_path : string)
  | ChangeFailed (file_path : string).

(** [now] is [datetime.now().strftime('%Y-%m-%d %H:%M:%S')]. *)
Definition make_minimal_change (w : World) (now : string)
    (fs : gmap string textfile) (file_path language : string) (s : Run)
    : gmap string textfile * bool * change_report * Run :=
  match fs !! file_path with
  | None => (fs, false, FileMissing file_path, s)
  | Some f =>
      if negb (file_readable f) then (fs, false, ChangeFailed file_path, s)
      else
        let content := readlines (file_text f) in
        let timestamp := now in
        let '(insert_position, s) :=
          draw_randint w 0 (Z.max (Z.of_nat (length content)) 1) s in
        let content :=
          py_insert insert_position (inserted_line language timestamp) content in
        if negb (file_writable f) then (fs, false, ChangeFailed file_path, s)
        else
          (<[file_path := {| file_text := writelines content;
                             file_readable := file_readable f;
                             file_writable := file_writable f |}]> fs,
           true, FileChanged file_path, s)
  end.

(** The text ends with a line end. *)
Fixpoint ends_with_newline (s : string) : bool :=
  match s with
  | EmptyString => false
  | String c EmptyString => Ascii.eqb c newline
  | String _ s' => ends_with_newline s'
  end.

(** Every line but the last ends with a line end. *)
Fixpoint closed_lines (lines : list string) : Prop :=
  match lines with
  | [] => True
  | l :: ls => (ls = [] ∨ ends_with_newline l = true) ∧ closed_lines ls
  end.

(** What [random.sample] promises that matters here: the elements it returns
    are elements of the population. *)
Definition sample_from_population (w : World) : Prop :=
  ∀ (population : list string) (k : Z), sample w population k ⊆ population.

(** ** Sample data *)

(** A store whose last recorded day is 5 January 2024, in a streak of two. *)
Definition stats_jan5 : Stats :=
  set_commit_streaks
    {| current := 2; longest := 4; last_commit_date := Some "2024-01-05" |}
    fresh_stats.

Definition empty_disk : Disk := {| stored := NoFile; writable := true |}.

(** Three repositories within reach, a budget of 5 typed at the prompt, every
    commit and every reset successful, and the batch discarded.  The first
    draw, the size of the subset, is the largest value allowed; the later
    ones are the smallest. *)
Definition world_budget5 : World :=
  {| disk := empty_disk;
     check_access := λ _, true;
     reply_commit_control := "да";
     reply_total := 5;
     reply_keep := "нет";
     randint := λ k a b, match k with O => b | S _ => a end;
     sample := λ population k, take (Z.to_nat k) population;
     expovariate_floor := λ _, 0;
     git_commit := λ _ _, true;
     git_reset := λ _ _, true |}.

(** The same console and disk with no repository within reach. *)
Definition world_offline : World :=
  {| disk := empty_disk;
     check_access := λ _, false;
     reply_commit_control := "да";
     reply_total := 5;
     reply_keep := "нет";
     randint := λ k a b, a;
     sample := λ population k, take (Z.to_nat k) population;
     expovariate_floor := λ _, 0;
     git_commit := λ _ _, true;
     git_reset := λ _ _, true |}.

(** Two repositories, a budget of 4 split 2 and 2, all four commits
    successful, and the batch discarded. *)
Definition world_four_commits : World :=
  {| disk := empty_disk;
     check_access := λ _, true;
     reply_commit_control := "да";
     reply_total := 4;
     reply_keep := "нет";
     randint := λ k a b, match k with O => b | S _ => 2 end;
     sample := λ population k, take (Z.to_nat k) population;
     expovariate_floor := λ _, 0;
     git_commit := λ _ _, true;
     git_reset := λ _ _, true |}.

(** A text of the given lines, each ended by a line feed. *)
Definition text_of_lines (ls : list string) : text :=
  concat (map (λ l, (codepoints l ++ [10%N])%list) ls).

(** Ten lines with one function definition, no class, no [if] and no loop. *)
Definition ten_lines : text :=
  text_of_lines
    ["def area(width, height):";
     "    product = width * height";
     "    doubled = product + product";
     "    return doubled";
     "";
     "side = 4";
     "other = 5";
     "total = area(side, other)";
     "print(total)";
     "print(side)"].

(** Two calls on one repository, the second with a timestamp [strptime]
    rejects. *)
Definition two_calls : list commit_call :=
  [mkCall "repo" "a.py" "feature" "2024-01-01 09:00:00";
   mkCall "repo" "b.py" "fix" "yesterday"].



(** A budget of 2 typed for three selected repositories. *)
Definition world_budget2 : World :=
  {| disk := empty_disk;
     check_access := λ _, true;
     reply_commit_control := "да";
     reply_total := 2;
     reply_keep := "да";
     randint := λ k a b, match k with O => b | S _ => a end;
     sample := λ population k, take (Z.to_nat k) population;
     expovariate_floor := λ k, Z.of_nat k * 40;
     git_commit := λ _ _, true;
     git_reset := λ _ _, true |}.

(** A file system with one Python file of two lines, the second without a
    line end, and a file that cannot be written. *)
Definition two_line_file : textfile :=
  {| file_text := String.append "import os" (String newline "print(os.name)");
     file_readable := true;
     file_writable := true |}.

Definition sample_fs : gmap string textfile :=
  <["main.py" := two_line_file]>
    (<["locked.py" := {| file_text := "x = 1"; file_readable := true;
                         file_writable := false |}]> ∅).

(** Two candidates of which only the first can be reached; no budget is
    typed and the batch is kept. *)
Definition world_half_reachable : World :=
  {| disk := empty_disk;
     check_access := λ p, String.eqb p "A";
     reply_commit_control := "нет";
     reply_total := 0;
     reply_keep := "да";
     randint := λ k a b, b;
     sample := λ population k, take (Z.to_nat k) population;
     expovariate_floor := λ _, 1;
     git_commit := λ k _, Nat.eqb k 0;
     git_reset := λ _ _, true |}.

(** * Properties *)

(** ** Dates and their spellings *)

Lemma digit_of_ascii_of_digit (d : Z) :
  0 <= d <= 9 → digit_of_ascii (ascii_of_digit d) = Some d.
Proof.
  intros Hd.
  assert (d = 0 ∨ d = 1 ∨ d = 2 ∨ d = 3 ∨ d = 4 ∨ d = 5 ∨ d = 6 ∨ d = 7
          ∨ d = 8 ∨ d = 9) as Hcases by lia.
  repeat (destruct Hcases as [-> | Hcases]; [reflexivity |]).
  subst d. reflexivity.
Qed.

Lemma parse_digits_pad2 (n acc : Z) (rest : string) :
  0 <= n < 100 →
  parse_digits 2 acc (pad2 n rest) = Some (100 * acc + n, rest).
Proof.
  intros Hn. unfold pad2. cbn [parse_digits].
  rewrite !digit_of_ascii_of_digit by (Z.div_mod_to_equations; lia).
  do 2 f_equal. Z.div_mod_to_equations. lia.
Qed.

Lemma parse_digits_pad4 (n : Z) (rest : string) :
  0 <= n < 10000 → parse_digits 4 0 (pad4 n rest) = Some (n, rest).
Proof.
  intros Hn. unfold pad4.
  change (parse_digits 4 0 ?s) with
    (match s with
     | String a (String b s') =>
         match digit_of_ascii a with
         | Some da =>
             match digit_of_ascii b with
             | Some db => parse_digits 2 (10 * (10 * 0 + da) + db) s'
             | None => None
             end
         | None => None
         end
     | _ => None
     end).
  cbv beta iota.
  rewrite !digit_of_ascii_of_digit by (Z.div_mod_to_equations; lia).
  rewrite parse_digits_pad2 by (Z.div_mod_to_equations; lia).
  do 2 f_equal. Z.div_mod_to_equations. lia.
Qed.

Lemma valid_date_bounds (d : date) :
  valid_date d = true →
  1 <= year d <= 9999 ∧ 1 <= month d <= 12
  ∧ 1 <= day d <= days_in_month (year d) (month d).
Proof. unfold valid_date. rewrite !andb_true_iff, !Z.leb_le. lia. Qed.

Lemma days_in_month_le_31 (y m : Z) : 1 <= m <= 12 → days_in_month y m <= 31.
Proof.
  intros Hm. unfold days_in_month.
  destruct ((m =? 2) && is_leap y); [lia |].
  assert (m = 1 ∨ m = 2 ∨ m = 3 ∨ m = 4 ∨ m = 5 ∨ m = 6 ∨ m = 7 ∨ m = 8
          ∨ m = 9 ∨ m = 10 ∨ m = 11 ∨ m = 12) as Hcases by lia.
  repeat (destruct Hcases as [-> | Hcases]; [apply Z.leb_le; reflexivity |]).
  subst m. apply Z.leb_le. reflexivity.
Qed.

Lemma expect_head (c : ascii) (s : string) : expect c (String c s) = Some s.
Proof. cbn [expect]. rewrite Ascii.eqb_refl. reflexivity. Qed.

Lemma parse_ymd_strftime_date (d : date) (rest : string) :
  valid_date d = true →
  parse_ymd (strftime_date d ++ rest) = Some (d, rest).
Proof.
  intros Hv. apply valid_date_bounds in Hv as (Hy & Hm & Hd).
  pose proof (days_in_month_le_31 (year d) (month d) Hm) as H31.
  destruct d as [y m dd]; cbn [year month day] in *.
  unfold parse_ymd, strftime_date. cbn [year month day].
  replace (pad4 y (String "-" (pad2 m (String "-" (pad2 dd ""))))%string ++ rest)%string
    with (pad4 y (String "-" (pad2 m (String "-" (pad2 dd rest))))) by reflexivity.
  rewrite parse_digits_pad4 by lia. cbn [mbind option_bind].
  rewrite expect_head. cbn [mbind option_bind].
  rewrite parse_digits_pad2 by lia. cbn [mbind option_bind].
  rewrite expect_head. cbn [mbind option_bind].
  rewrite parse_digits_pad2 by lia. cbn [mbind option_bind].
  do 3 f_equal; lia.
Qed.

(** What [strftime] writes, [strptime] reads back. *)
Lemma strptime_strftime_date (d : date) :
  valid_date d = true → strptime_date (strftime_date d) = Some d.
Proof.
  intros Hv. unfold strptime_date.
  pose proof (parse_ymd_strftime_date d "" Hv) as Hp.
  assert (strftime_date d ++ "" = strftime_date d)%string as Happ.
  { generalize (strftime_date d). intros s.
    induction s as [| a s IH]; [reflexivity |].
    change (String a (s ++ "")%string = String a s). f_equal. exact IH. }
  rewrite Happ in Hp. rewrite Hp. cbn. rewrite Hv. reflexivity.
Qed.

Lemma strptime_datetime_accepts (timestamp : string) (t : datetime) :
  strptime_datetime timestamp = Some t → valid_datetime t = true.
Proof.
  unfold strptime_datetime. intros H.
  repeat (match type of H with
          | context [match ?x with _ => _ end] => destruct x eqn:?; try discriminate
          | context [mbind _ ?x] => destruct x eqn:?; cbn in H; try discriminate
          end; cbn in H).
  all: try discriminate.
  all: repeat match goal with
       | H : Some _ = Some _ |- _ => injection H as <-
       end.
  all: assumption.
Qed.

Lemma strptime_datetime_valid (timestamp : string) (t : datetime) :
  strptime_datetime timestamp = Some t → valid_date (dt_date t) = true.
Proof.
  intros H. apply strptime_datetime_accepts in H. unfold valid_datetime in H.
  rewrite !andb_true_iff in H. tauto.
Qed.

(** ** The streak machine *)

Lemma stored_last_date_unset (cs : CommitStreak) :
  truthy (last_commit_date cs) = false → stored_last_date cs = Ok None.
Proof.
  unfold stored_last_date. destruct (last_commit_date cs) as [s |]; [| reflexivity].
  intros ->. reflexivity.
Qed.

Lemma stored_last_date_set (cs : CommitStreak) (s : string) (ld : date) :
  last_commit_date cs = Some s → strptime_date s = Some ld →
  stored_last_date cs = Ok (Some ld).
Proof.
  intros Hs Hld. unfold stored_last_date. rewrite Hs.
  destruct s as [| a s]; [discriminate Hld |].
  cbn [truthy]. rewrite Hld. reflexivity.
Qed.

Lemma update_commit_streak_ok (timestamp : string) (t : datetime) (st : Stats)
    (last_date : option date) :
  strptime_datetime timestamp = Some t →
  stored_last_date (commit_streaks st) = Ok last_date →
  update_commit_streak timestamp st =
    Ok (set_commit_streaks
          {| current := current (streak_counters (dt_date t) last_date (commit_streaks st));
             longest := longest (streak_counters (dt_date t) last_date (commit_streaks st));
             last_commit_date := Some (strftime_date (dt_date t)) |} st).
Proof. intros Ht Hl. unfold update_commit_streak. rewrite Ht, Hl. reflexivity. Qed.

(** C2: on a new commit date the streak follows the transition rules: with no
    stored date [current] becomes 1; one day after the stored date [current]
    is incremented and [longest] becomes the maximum of [longest] and the new
    [current]; on the stored date both are unchanged; more than one day after
    it [current] is 1 again and [longest] is kept; in every case the stored
    date becomes the new one.  The dates 1, 2 and 3 January 2024 in a row
    give [current = 3] and [longest = 3]. *)
Theorem update_commit_streak_rules :
  (∀ (timestamp : string) (t : datetime) (st : Stats) (last_date : option date),
      strptime_datetime timestamp = Some t →
      stored_last_date (commit_streaks st) = Ok last_date →
      ∃ st' : Stats,
        update_commit_streak timestamp st = Ok st'
        ∧ last_commit_date (commit_streaks st') = Some (strftime_date (dt_date t))
        ∧ (truthy (last_commit_date (commit_streaks st)) = false → last_date = None)
        ∧ match last_date with
          | None =>
              current (commit_streaks st') = 1
          | Some ld =>
              let days_diff := toordinal (dt_date t) - toordinal ld in
              (days_diff = 1 →
                 current (commit_streaks st') = current (commit_streaks st) + 1
                 ∧ longest (commit_streaks st')
                   = Z.max (longest (commit_streaks st)) (current (commit_streaks st) + 1))
              ∧ (days_diff = 0 →
                   current (commit_streaks st') = current (commit_streaks st)
                   ∧ longest (commit_streaks st') = longest (commit_streaks st))
              ∧ (1 < days_diff →
                   current (commit_streaks st') = 1
                   ∧ longest (commit_streaks st') = longest (commit_streaks st))
          end)
  ∧ commit_streaks <$> streak_run
        ["2024-01-01 09:15:00"; "2024-01-02 18:40:10"; "2024-01-03 00:00:00"]
        fresh_stats
    = Some {| current := 3; longest := 3; last_commit_date := Some "2024-01-03" |}.
Proof.
  split; [| vm_compute; reflexivity].
  intros timestamp t st last_date Ht Hl.
  eexists. split; [exact (update_commit_streak_ok _ _ _ _ Ht Hl) |].
  cbn [commit_streaks set_commit_streaks current longest last_commit_date].
  split; [reflexivity |]. split.
  { intros Hunset. apply stored_last_date_unset in Hunset. congruence. }
  destruct last_date as [ld |]; [| reflexivity].
  cbv zeta. unfold streak_counters.
  repeat split.
  all: destruct (Z.eqb_spec (toordinal (dt_date t) - toordinal ld) 1);
    destruct (Z.ltb_spec 1 (toordinal (dt_date t) - toordinal ld));
    try lia; reflexivity.
Qed.

(** The rules of C2 at work: 6 January after a stored 5 January, in a streak
    of two with a record of four. *)
Lemma update_commit_streak_rules_next_day :
  ∃ st' : Stats,
    update_commit_streak "2024-01-06 07:30:00" stats_jan5 = Ok st'
    ∧ commit_streaks st'
      = {| current := 3; longest := 4; last_commit_date := Some "2024-01-06" |}.
Proof.
  destruct (proj1 update_commit_streak_rules "2024-01-06 07:30:00"
              {| dt_date := mkdate 2024 1 6; hour := 7; minute := 30; second := 0 |}
              stats_jan5 (Some (mkdate 2024 1 5)) eq_refl eq_refl)
    as (st' & Hupd & Hdate & _ & Hnext & _ & _).
  exists st'. split; [exact Hupd |].
  destruct (Hnext eq_refl) as [Hc Hl].
  destruct (commit_streaks st') as [c l d].
  cbn [current longest last_commit_date] in Hdate, Hc, Hl.
  subst c l d. reflexivity.
Defined.

(** C9: a commit dated strictly before the stored date leaves [current] and
    [longest] as they are and overwrites the stored date with the earlier
    one: the stored date moves backwards. *)
Theorem backdated_commit_moves_date_back (timestamp s : string) (t : datetime)
    (ld : date) (st : Stats) :
  strptime_datetime timestamp = Some t →
  last_commit_date (commit_streaks st) = Some s →
  strptime_date s = Some ld →
  toordinal (dt_date t) < toordinal ld →
  ∃ st' : Stats,
    update_commit_streak timestamp st = Ok st'
    ∧ current (commit_streaks st') = current (commit_streaks st)
    ∧ longest (commit_streaks st') = longest (commit_streaks st)
    ∧ last_commit_date (commit_streaks st') = Some (strftime_date (dt_date t))
    ∧ stored_last_date (commit_streaks st') = Ok (Some (dt_date t)).
Proof.
  intros Ht Hs Hld Hlt.
  pose proof (stored_last_date_set _ _ _ Hs Hld) as Hl.
  eexists. split; [exact (update_commit_streak_ok _ _ _ _ Ht Hl) |].
  cbn [commit_streaks set_commit_streaks current longest last_commit_date].
  unfold streak_counters.
  destruct (Z.eqb_spec (toordinal (dt_date t) - toordinal ld) 1) as [E | _]; [lia |].
  destruct (Z.ltb_spec 1 (toordinal (dt_date t) - toordinal ld)) as [E | _]; [lia |].
  repeat split.
  apply (stored_last_date_set _ (strftime_date (dt_date t))); [reflexivity |].
  apply strptime_strftime_date. exact (strptime_datetime_valid _ _ Ht).
Qed.

Lemma backdated_commit_moves_date_back_witness :
  ∃ st' : Stats,
    update_commit_streak "2024-01-02 23:59:59" stats_jan5 = Ok st'
    ∧ current (commit_streaks st') = 2
    ∧ longest (commit_streaks st') = 4
    ∧ last_commit_date (commit_streaks st') = Some "2024-01-02"
    ∧ stored_last_date (commit_streaks st') = Ok (Some (mkdate 2024 1 2)).
Proof.
  exact (backdated_commit_moves_date_back "2024-01-02 23:59:59" "2024-01-05"
           {| dt_date := mkdate 2024 1 2; hour := 23; minute := 59; second := 59 |}
           (mkdate 2024 1 5) stats_jan5 eq_refl eq_refl eq_refl eq_refl).
Defined.

(** C1 (the invariant [current <= longest] does not survive the code): from
    the fresh store the first recorded commit sets [current] to 1 and leaves
    [longest] at 0, and after the dates 1 and 5 January 2024 the store holds
    [current = 1] with [longest = 0].  Only the branch for the next day
    raises [longest]. *)
Theorem first_commit_leaves_longest_behind :
  commit_streaks (fst (record_all
      [mkCall "repo" "a.py" "fix" "2024-01-01 09:00:00"] (fresh_stats, empty_disk)))
    = {| current := 1; longest := 0; last_commit_date := Some "2024-01-01" |}
  ∧ commit_streaks (fst (record_all
      [mkCall "repo" "a.py" "fix" "2024-01-01 09:00:00";
       mkCall "repo" "a.py" "fix" "2024-01-05 09:00:00"] (fresh_stats, empty_disk)))
    = {| current := 1; longest := 0; last_commit_date := Some "2024-01-05" |}
  ∧ commit_streaks <$> streak_run ["2024-01-01 09:00:00"; "2024-01-05 09:00:00"] fresh_stats
    = Some {| current := 1; longest := 0; last_commit_date := Some "2024-01-05" |}.
Proof. repeat split; vm_compute; reflexivity. Qed.

(** The weaker bound that every update keeps: [current] exceeds [longest]
    only while it is 1. *)
Lemma update_commit_streak_bounded (timestamp : string) (st st' : Stats) :
  streak_bounded (commit_streaks st) →
  update_commit_streak timestamp st = Ok st' →
  streak_bounded (commit_streaks st').
Proof.
  unfold update_commit_streak, streak_bounded.
  destruct (strptime_datetime timestamp) as [t |]; [| discriminate].
  destruct (stored_last_date (commit_streaks st)) as [last_date |]; [| discriminate].
  intros Hb [= <-]. cbn [commit_streaks set_commit_streaks current longest].
  unfold streak_counters. destruct last_date as [ld |]; [| right; reflexivity].
  destruct (toordinal (dt_date t) - toordinal ld =? 1);
    [cbn [current longest]; lia |].
  destruct (1 <? toordinal (dt_date t) - toordinal ld);
    [right; reflexivity | exact Hb].
Qed.

Lemma streak_run_bounded (timestamps : list string) (st st' : Stats) :
  streak_bounded (commit_streaks st) →
  streak_run timestamps st = Some st' →
  streak_bounded (commit_streaks st').
Proof.
  revert st. induction timestamps as [| ts rest IH]; intros st Hb; cbn [streak_run].
  - intros [= <-]. exact Hb.
  - destruct (update_commit_streak ts st) as [st1 |] eqn:Hupd; [| discriminate].
    apply IH. exact (update_commit_streak_bounded ts st st1 Hb Hupd).
Qed.

(** ** Loading the store *)

(** C3 (as stated, refuted): a malformed or unreadable statistics file does
    not give the fresh store; the exception of [open] or [json.load] leaves
    [load_stats]. *)
Lemma load_stats_malformed_is_fatal :
  load_stats {| stored := Malformed; writable := true |} = Raise JSONDecodeError
  ∧ load_stats {| stored := Unreadable; writable := true |} = Raise PermissionError
  ∧ load_stats {| stored := Malformed; writable := true |} ≠ Ok fresh_stats.
Proof. repeat split; try reflexivity. discriminate. Qed.

(** C3 (amended): when the statistics file is absent, [load_stats] returns the
    fresh store, whose counts are zero, whose mappings are empty and whose
    streak is at 0, 0 and no date; a document that parses is returned as it
    is; an unreadable or malformed file raises. *)
Theorem load_stats_falls_back_when_absent (d : Disk) :
  load_stats d
  = match stored d with
    | NoFile => Ok fresh_stats
    | Unreadable => Raise PermissionError
    | Malformed => Raise JSONDecodeError
    | Document doc => Ok doc
    end
  ∧ repositories fresh_stats = ∅
  ∧ total_commits fresh_stats = 0
  ∧ commit_history fresh_stats = []
  ∧ developer_patterns fresh_stats = ∅
  ∧ most_active_times fresh_stats = ∅
  ∧ file_complexity fresh_stats = ∅
  ∧ commit_streaks fresh_stats
    = {| current := 0; longest := 0; last_commit_date := None |}.
Proof.
  split; [| repeat split].
  unfold load_stats, read_json. destruct (stored d); reflexivity.
Qed.

(** ** Recording a commit *)

Lemma list_incr_in_range (i : Z) (l : list Z) :
  0 <= i < Z.of_nat (length l) →
  list_incr i l = Some (alter (λ x, x + 1) (Z.to_nat i) l).
Proof.
  intros Hi. unfold list_incr, py_position. cbv zeta.
  destruct (Z.leb_spec 0 i); [| lia].
  destruct (Z.ltb_spec i (Z.of_nat (length l))); [| lia].
  reflexivity.
Qed.

Lemma weekday_range (d : date) : 0 <= weekday d < 7.
Proof. unfold weekday. apply Z.mod_pos_bound. lia. Qed.

Lemma hour_range (timestamp : string) (t : datetime) :
  strptime_datetime timestamp = Some t → 0 <= hour t < 24.
Proof.
  intros H. apply strptime_datetime_accepts in H. unfold valid_datetime in H.
  rewrite !andb_true_iff, !Z.leb_le in H. lia.
Qed.

Lemma wf_new_repo : wf_repo new_repo.
Proof. split; reflexivity. Qed.

Lemma wf_default_repo (st : Stats) (repo_path : string) :
  map_Forall (λ _ r, wf_repo r) (repositories st) →
  wf_repo (default new_repo (repositories st !! repo_path)).
Proof.
  intros Hall. destruct (repositories st !! repo_path) as [r |] eqn:Hr; cbn.
  - exact (Hall _ _ Hr).
  - exact wf_new_repo.
Qed.

Lemma wf_fresh_stats : wf_stats fresh_stats.
Proof. split; [apply map_Forall_empty | reflexivity]. Qed.

Lemma add_commit_ok (repo_path file_path commit_type timestamp : string)
    (t : datetime) (st : Stats) (disk : Disk) :
  strptime_datetime timestamp = Some t →
  wf_stats st →
  ∃ st' : Stats,
    update_commit_streak timestamp
      (incr_total_commits
         (store_repo repo_path
            (recorded_repo file_path timestamp t
               (default new_repo (repositories st !! repo_path))) st)) = Ok st'
    ∧ add_commit repo_path file_path commit_type timestamp st disk
      = (st', fst (save_stats st' disk), snd (save_stats st' disk)).
Proof.
  intros Ht [Hrepos Hdate].
  pose proof (wf_default_repo st repo_path Hrepos) as [Hh Hd].
  pose proof (hour_range _ _ Ht) as Hhour.
  pose proof (weekday_range (dt_date t)) as Hday.
  destruct (stored_last_date (commit_streaks st)) as [last |] eqn:Hl;
    [| discriminate Hdate].
  eexists. split.
  { apply (update_commit_streak_ok _ _ _ last Ht). exact Hl. }
  unfold add_commit. rewrite Ht.
  cbn [set_files touch_repo active_hours active_days set_active_hours].
  rewrite list_incr_in_range by (rewrite Hh; lia).
  rewrite list_incr_in_range by (rewrite Hd; lia).
  cbn [set_active_days set_active_hours active_hours active_days files
       repo_total_commits last_commit commit_types].
  fold (recorded_repo file_path timestamp t
          (default new_repo (repositories st !! repo_path))).
  rewrite (update_commit_streak_ok _ _ _ last Ht) by exact Hl.
  destruct (save_stats _ disk) as [disk' res]. reflexivity.
Qed.

Lemma update_commit_streak_frame (timestamp : string) (st st' : Stats) :
  update_commit_streak timestamp st = Ok st' →
  repositories st' = repositories st ∧ total_commits st' = total_commits st.
Proof.
  unfold update_commit_streak.
  destruct (strptime_datetime timestamp); [| discriminate].
  destruct (stored_last_date (commit_streaks st)); [| discriminate].
  intros [= <-]. split; reflexivity.
Qed.

Lemma update_commit_streak_stores_date (timestamp : string) (st st' : Stats) :
  update_commit_streak timestamp st = Ok st' →
  is_ok (stored_last_date (commit_streaks st')) = true.
Proof.
  unfold update_commit_streak.
  destruct (strptime_datetime timestamp) as [t |] eqn:Ht; [| discriminate].
  destruct (stored_last_date (commit_streaks st)); [| discriminate].
  intros [= <-]. cbn [commit_streaks set_commit_streaks].
  erewrite stored_last_date_set; [reflexivity | reflexivity |].
  apply strptime_strftime_date. exact (strptime_datetime_valid _ _ Ht).
Qed.

Lemma wf_recorded_repo (file_path timestamp : string) (t : datetime) (r0 : RepoStats) :
  wf_repo r0 → wf_repo (recorded_repo file_path timestamp t r0).
Proof.
  intros [Hh Hd]. split; cbn [recorded_repo active_hours active_days];
    rewrite length_alter; assumption.
Qed.

(** C4: a call of [add_commit] with a well-formed timestamp leaves the entry
    of the repository (a zeroed one when it was missing) with [total_commits]
    one higher and [last_commit] at the timestamp, the entry of the file (a
    new one when it was missing) with [commits] one higher and
    [last_modified] at the timestamp, the counters of the hour and of the week
    day of the timestamp one higher, the global [total_commits] one higher,
    and the whole store written to a writable disk; every other repository
    and every other file of the repository is as before, and nothing else of
    the two entries changes.  Two calls for one repository, from the fresh
    store, give it [total_commits = 2] and keep the file of the first call. *)
Theorem add_commit_records :
  (∀ (repo_path file_path commit_type timestamp : string) (t : datetime)
     (st : Stats) (disk : Disk),
      strptime_datetime timestamp = Some t →
      wf_stats st →
      let r0 := default new_repo (repositories st !! repo_path) in
      let f0 := default new_file (files r0 !! file_path) in
      ∃ (st' : Stats) (disk' : Disk) (res : result unit)
        (r' : RepoStats) (f' : FileStats),
        add_commit repo_path file_path commit_type timestamp st disk
          = (st', disk', res)
        ∧ repositories st' !! repo_path = Some r'
        ∧ repo_total_commits r' = repo_total_commits r0 + 1
        ∧ last_commit r' = Some timestamp
        ∧ files r' !! file_path = Some f'
        ∧ commits f' = commits f0 + 1
        ∧ last_modified f' = Some timestamp
        ∧ (Z.to_nat (hour t) < length (active_hours r0))%nat
        ∧ active_hours r'
          = alter (λ x, x + 1) (Z.to_nat (hour t)) (active_hours r0)
        ∧ (Z.to_nat (weekday (dt_date t)) < length (active_days r0))%nat
        ∧ active_days r'
          = alter (λ x, x + 1) (Z.to_nat (weekday (dt_date t))) (active_days r0)
        ∧ total_commits st' = total_commits st + 1
        ∧ (writable disk = true → res = Ok tt ∧ stored disk' = Document st')
        ∧ (∀ p : string, p ≠ repo_path →
             repositories st' !! p = repositories st !! p)
        ∧ (∀ q : string, q ≠ file_path → files r' !! q = files r0 !! q)
        ∧ commit_types r' = commit_types r0
        ∧ changes_per_month f' = changes_per_month f0
        ∧ complexity_score f' = complexity_score f0
        ∧ wf_stats st')
  ∧ (∀ (repo_path file1 file2 type1 type2 ts1 ts2 : string) (t1 t2 : datetime)
       (disk : Disk),
        strptime_datetime ts1 = Some t1 →
        strptime_datetime ts2 = Some t2 →
        let st2 :=
          fst (record_all [mkCall repo_path file1 type1 ts1;
                           mkCall repo_path file2 type2 ts2]
                 (fresh_stats, disk)) in
        ∃ r : RepoStats,
          repositories st2 !! repo_path = Some r
          ∧ repo_total_commits r = 2
          ∧ total_commits st2 = 2
          ∧ is_Some (files r !! file1)
          ∧ is_Some (files r !! file2)).
Proof.
  assert (∀ (repo_path file_path commit_type timestamp : string) (t : datetime)
            (st : Stats) (disk : Disk),
      strptime_datetime timestamp = Some t →
      wf_stats st →
      ∃ st' : Stats,
        fst (add_commit repo_path file_path commit_type timestamp st disk)
          = (st', fst (save_stats st' disk))
        ∧ snd (add_commit repo_path file_path commit_type timestamp st disk)
          = snd (save_stats st' disk)
        ∧ repositories st'
          = <[repo_path := recorded_repo file_path timestamp t
                             (default new_repo (repositories st !! repo_path))]>
              (repositories st)
        ∧ total_commits st' = total_commits st + 1
        ∧ wf_stats st') as Hcall.
  { intros repo_path file_path commit_type timestamp t st disk Ht Hwf.
    destruct (add_commit_ok repo_path file_path commit_type timestamp t st disk
                Ht Hwf) as (st' & Hupd & Hadd).
    exists st'. rewrite Hadd. split; [reflexivity |]. split; [reflexivity |].
    destruct (update_commit_streak_frame _ _ _ Hupd) as [Hrepos Htotal].
    split; [exact Hrepos |]. split; [exact Htotal |].
    split; [| exact (update_commit_streak_stores_date _ _ _ Hupd)].
    rewrite Hrepos. cbn [repositories incr_total_commits store_repo set_repositories].
    apply map_Forall_insert_2; [| exact (proj1 Hwf)].
    apply wf_recorded_repo, wf_default_repo. exact (proj1 Hwf). }
  split.
  - intros repo_path file_path commit_type timestamp t st disk Ht Hwf r0 f0.
    destruct (Hcall repo_path file_path commit_type timestamp t st disk Ht Hwf)
      as (st' & Hfst & Hsnd & Hrepos & Htotal & Hwf').
    pose proof (wf_default_repo st repo_path (proj1 Hwf)) as [Hh Hd].
    pose proof (hour_range _ _ Ht) as Hhour.
    pose proof (weekday_range (dt_date t)) as Hday.
    exists st', (fst (save_stats st' disk)), (snd (save_stats st' disk)),
      (recorded_repo file_path timestamp t r0), (touch_file timestamp f0).
    split.
    { rewrite (surjective_pairing (add_commit _ _ _ _ _ _)), Hfst, Hsnd.
      reflexivity. }
    split; [rewrite Hrepos; apply lookup_insert_eq |].
    split; [reflexivity |]. split; [reflexivity |].
    split; [apply lookup_insert_eq |].
    split; [reflexivity |]. split; [reflexivity |].
    split; [fold r0 in Hh; lia |]. split; [reflexivity |].
    split; [fold r0 in Hd; lia |]. split; [reflexivity |].
    split; [exact Htotal |].
    split.
    { intros Hw. unfold save_stats. rewrite Hw. split; reflexivity. }
    split; [intros p Hp; rewrite Hrepos; apply lookup_insert_ne; congruence |].
    split; [intros q Hq; apply lookup_insert_ne; congruence |].
    split; [reflexivity |]. split; [reflexivity |]. split; [reflexivity |].
    exact Hwf'.
  - intros repo_path file1 file2 type1 type2 ts1 ts2 t1 t2 disk Ht1 Ht2 st2.
    destruct (Hcall repo_path file1 type1 ts1 t1 fresh_stats disk Ht1 wf_fresh_stats)
      as (st1 & Hfst1 & _ & Hrepos1 & Htotal1 & Hwf1).
    destruct (Hcall repo_path file2 type2 ts2 t2 st1 (fst (save_stats st1 disk))
                Ht2 Hwf1)
      as (st2' & Hfst2 & _ & Hrepos2 & Htotal2 & _).
    assert (st2 = st2') as ->.
    { subst st2. unfold record_all, record_call.
      cbn [foldl call_repo call_file call_type call_timestamp fst snd].
      rewrite Hfst1. cbn [fst snd]. rewrite Hfst2. reflexivity. }
    eexists. split; [rewrite Hrepos2; apply lookup_insert_eq |].
    rewrite Hrepos1. rewrite lookup_insert_eq. cbn [default recorded_repo repo_total_commits files].
    split; [reflexivity |]. split; [rewrite Htotal2, Htotal1; reflexivity |].
    split.
    + destruct (decide (file2 = file1)) as [-> | Hne].
      * rewrite lookup_insert_eq. eauto.
      * rewrite lookup_insert_ne by congruence.
        unfold recorded_repo at 1. cbn [id files]. rewrite lookup_insert_eq. eauto.
    + rewrite lookup_insert_eq. eauto.
Qed.

(** The general statement of C4 on the first commit ever recorded. *)
Lemma add_commit_records_first :
  ∃ (st' : Stats) (disk' : Disk) (r' : RepoStats) (f' : FileStats),
    add_commit "repo" "a.py" "fix" "2024-01-01 09:00:00" fresh_stats empty_disk
      = (st', disk', Ok tt)
    ∧ stored disk' = Document st'
    ∧ total_commits st' = 1
    ∧ repositories st' !! "repo" = Some r'
    ∧ repo_total_commits r' = 1
    ∧ last_commit r' = Some "2024-01-01 09:00:00"
    ∧ files r' !! "a.py" = Some f'
    ∧ commits f' = 1
    ∧ active_hours r' !! 9%nat = Some 1
    ∧ active_days r' !! 0%nat = Some 1.
Proof.
  destruct (proj1 add_commit_records "repo" "a.py" "fix" "2024-01-01 09:00:00"
              {| dt_date := mkdate 2024 1 1; hour := 9; minute := 0; second := 0 |}
              fresh_stats empty_disk eq_refl
              (conj (map_Forall_empty _) eq_refl))
    as (st' & disk' & res & r' & f' & Hadd & Hr & Hrt & Hlast & Hf & Hc & _ & _
        & Hhours & _ & Hdays & Htotal & Hsave & _).
  destruct (Hsave eq_refl) as [-> Hdisk].
  exists st', disk', r', f'.
  split; [exact Hadd |]. split; [exact Hdisk |]. split; [exact Htotal |].
  split; [exact Hr |]. split; [exact Hrt |]. split; [exact Hlast |].
  split; [exact Hf |]. split; [exact Hc |].
  rewrite Hhours, Hdays. split; reflexivity.
Defined.

(** ** Fields [add_commit] never assigns *)

Lemma untouched_new_file : file_untouched new_file.
Proof. split; reflexivity. Qed.

Lemma untouched_default_repo (st : Stats) (repo_path : string) :
  never_written st →
  repo_untouched (default new_repo (repositories st !! repo_path)).
Proof.
  intros Hall. destruct (repositories st !! repo_path) as [r |] eqn:Hr; cbn.
  - exact (Hall _ _ Hr).
  - split; [reflexivity | apply map_Forall_empty].
Qed.

Lemma untouched_after_touch (file_path timestamp : string) (r0 r : RepoStats) :
  repo_untouched r0 →
  commit_types r = commit_types r0 →
  files r
  = <[file_path := touch_file timestamp (default new_file (files r0 !! file_path))]>
      (files r0) →
  repo_untouched r.
Proof.
  intros [Htypes Hfiles] Hct Hfs. split; [congruence |].
  rewrite Hfs. apply map_Forall_insert_2; [| exact Hfiles].
  unfold file_untouched, touch_file. cbn [changes_per_month complexity_score].
  destruct (files r0 !! file_path) as [f |] eqn:Hf; cbn.
  - exact (Hfiles _ _ Hf).
  - exact untouched_new_file.
Qed.

Lemma never_written_store_repo (repo_path : string) (r : RepoStats) (st : Stats) :
  never_written st → repo_untouched r →
  never_written (store_repo repo_path r st).
Proof. intros Hall Hr. apply map_Forall_insert_2; assumption. Qed.

Lemma add_commit_never_writes (repo_path file_path commit_type timestamp : string)
    (st : Stats) (disk : Disk) :
  never_written st →
  never_written (fst (fst (add_commit repo_path file_path commit_type timestamp st disk))).
Proof.
  intros Hall.
  pose proof (untouched_default_repo st repo_path Hall) as H0.
  unfold add_commit.
  destruct (strptime_datetime timestamp) as [t |]; cbn [fst].
  2: { apply never_written_store_repo; [exact Hall |].
       eapply untouched_after_touch; [exact H0 | reflexivity | reflexivity]. }
  destruct (list_incr (hour t) _) as [hs |]; cbn [fst].
  2: { apply never_written_store_repo; [exact Hall |].
       eapply untouched_after_touch; [exact H0 | reflexivity | reflexivity]. }
  destruct (list_incr (weekday (dt_date t)) _) as [ds |]; cbn [fst].
  2: { apply never_written_store_repo; [exact Hall |].
       eapply untouched_after_touch; [exact H0 | reflexivity | reflexivity]. }
  match goal with
  | |- context [update_commit_streak timestamp ?s] =>
      assert (never_written s) as Hs;
      [| destruct (update_commit_streak timestamp s) as [st' |] eqn:Hupd]
  end.
  - apply (never_written_store_repo repo_path _ st Hall).
    eapply untouched_after_touch; [exact H0 | reflexivity | reflexivity].
  - destruct (save_stats st' disk) as [disk' res]. cbn [fst].
    unfold never_written.
    rewrite (proj1 (update_commit_streak_frame _ _ _ Hupd)). exact Hs.
  - cbn [fst]. exact Hs.
Qed.

(** C10: [add_commit] never writes [commit_types], [changes_per_month] or
    [complexity_score]: after any sequence of calls on the fresh store,
    whatever their arguments and whether or not a call raised, every
    repository has an empty [commit_types] and every file an empty
    [changes_per_month] and the [complexity_score] 0. *)
Theorem add_commit_leaves_reserved_fields (calls : list commit_call) (disk : Disk) :
  ∀ (repo_path : string) (r : RepoStats),
    repositories (fst (record_all calls (fresh_stats, disk))) !! repo_path = Some r →
    commit_types r = ∅
    ∧ ∀ (file_path : string) (f : FileStats),
        files r !! file_path = Some f →
        changes_per_month f = ∅ ∧ complexity_score f = Int 0.
Proof.
  assert (∀ sd : Stats * Disk,
            never_written (fst sd) → never_written (fst (record_all calls sd)))
    as Hinv.
  { induction calls as [| c calls IH]; intros sd Hsd; [exact Hsd |].
    cbn [record_all foldl]. apply IH. unfold record_call.
    apply add_commit_never_writes. exact Hsd. }
  intros repo_path r Hr.
  assert (never_written (fst (fresh_stats, disk))) as Hfresh
    by apply map_Forall_empty.
  destruct (Hinv _ Hfresh _ _ Hr) as [Htypes Hfiles].
  split; [exact Htypes |]. intros file_path f Hf. exact (Hfiles _ _ Hf).
Qed.

(** C10 on [two_calls]: the second call raises after it has created the entry
    of its file, and the reserved fields of both files are still empty. *)
Lemma add_commit_leaves_reserved_fields_of_two_calls :
  ∃ r : RepoStats,
    repositories (fst (record_all two_calls (fresh_stats, empty_disk))) !! "repo"
      = Some r
    ∧ is_Some (files r !! "b.py")
    ∧ commit_types r = ∅
    ∧ ∀ (file_path : string) (f : FileStats),
        files r !! file_path = Some f →
        changes_per_month f = ∅ ∧ complexity_score f = Int 0.
Proof.
  destruct (repositories (fst (record_all two_calls (fresh_stats, empty_disk)))
              !! "repo") as [r |] eqn:Hr.
  - exists r. split; [reflexivity |].
    split; [vm_compute in Hr; injection Hr as <-; vm_compute; eauto |].
    exact (add_commit_leaves_reserved_fields two_calls empty_disk "repo" r Hr).
  - vm_compute in Hr. discriminate Hr.
Defined.

(** ** The batch: what each step adds to the trace *)

Local Open Scope list_scope.

Lemma allocations_app (t1 t2 : list event) :
  allocations (t1 ++ t2) = allocations t1 ++ allocations t2.
Proof. apply omap_app. Qed.

Lemma commit_attempts_app (t1 t2 : list event) :
  commit_attempts (t1 ++ t2) = commit_attempts t1 ++ commit_attempts t2.
Proof. apply omap_app. Qed.

Lemma successful_commits_app (t1 t2 : list event) :
  successful_commits (t1 ++ t2) = successful_commits t1 ++ successful_commits t2.
Proof. apply omap_app. Qed.

Lemma rollbacks_app (t1 t2 : list event) :
  rollbacks (t1 ++ t2) = rollbacks t1 ++ rollbacks t2.
Proof. apply omap_app. Qed.

Lemma prompts_app (t1 t2 : list event) :
  prompts (t1 ++ t2) = prompts t1 ++ prompts t2.
Proof. apply omap_app. Qed.

(** Normalises a reading of a trace that was extended event by event. *)
Ltac read_trace :=
  cbn [trace emit log draw_randint calculate_commits call_git_commit
       reset_changes fst snd];
  rewrite ?allocations_app, ?commit_attempts_app, ?successful_commits_app,
    ?rollbacks_app, ?prompts_app;
  cbn [allocations commit_attempts successful_commits rollbacks prompts omap
       list_omap];
  rewrite ?app_nil_r.

Lemma commit_loop_allocations (w : World) (repo_path : string) (todo : nat)
    (j : Z) (s : Run) :
  allocations (trace (commit_loop w repo_path todo j s)) = allocations (trace s).
Proof.
  revert j s. induction todo as [| todo IH]; intros j s; [reflexivity |].
  cbn [commit_loop]. unfold call_git_commit.
  destruct (git_commit w (n_git_commit s) repo_path).
  - rewrite IH. read_trace. reflexivity.
  - read_trace. reflexivity.
Qed.

Lemma budget_loop_allocations (w : World) (repos : list string) :
  randint_in_range w →
  ∀ (len i remaining : Z) (s : Run),
    len = i + Z.of_nat (length repos) →
    Z.of_nat (length repos) <= remaining →
    ∃ counts : list Z,
      allocations (trace (budget_loop w len i repos remaining s))
        = allocations (trace s) ++ zip repos counts
      ∧ length counts = length repos
      ∧ Forall (λ c, 1 <= c) counts
      ∧ (repos ≠ [] → total_of counts = remaining).
Proof.
  intros Hrand. induction repos as [| repo_path rest IH];
    intros len i remaining s Hlen Hrem.
  { exists []. cbn. rewrite app_nil_r. repeat split; [constructor | congruence]. }
  cbn [length] in Hlen, Hrem. cbn [budget_loop].
  destruct (Z.eqb_spec i (len - 1)) as [Hlast | Hnotlast].
  - assert (rest = []) as -> by (destruct rest; [reflexivity | cbn in Hlen; lia]).
    exists [remaining]. cbn [budget_loop].
    rewrite commit_loop_allocations. read_trace.
    split; [reflexivity |]. split; [reflexivity |].
    split; [constructor; [cbn in Hrem; lia | constructor] |].
    intros _. cbn. lia.
  - assert (rest ≠ []) as Hrest by (intros ->; cbn in Hlen; lia).
    assert (1 <= Z.of_nat (length rest)) as Hrest1.
    { destruct rest; [congruence | cbn; lia]. }
    assert (Z.min (remaining - (len - i - 1)) (remaining - 1)
            = remaining - Z.of_nat (length rest)) as -> by lia.
    destruct (Z.leb_spec (remaining - Z.of_nat (length rest)) 0) as [Hno | Hyes];
      [lia |].
    unfold draw_randint.
    pose proof (Hrand (n_randint s) 1 (remaining - Z.of_nat (length rest))
                  ltac:(lia)) as Hc.
    set (c := randint w (n_randint s) 1 (remaining - Z.of_nat (length rest))) in *.
    match goal with
    | |- context [budget_loop w len (i + 1) rest (remaining - c) ?s1] =>
        destruct (IH len (i + 1) (remaining - c) s1 ltac:(lia) ltac:(lia))
          as (counts & Halloc & Hlength & Hpos & Hsum)
    end.
    exists (c :: counts). rewrite Halloc, commit_loop_allocations. read_trace.
    split; [rewrite <- app_assoc; reflexivity |].
    split; [cbn; congruence |].
    split; [constructor; [lia | exact Hpos] |].
    intros _. cbn [total_of foldr]. fold (total_of counts).
    rewrite (Hsum Hrest). lia.
Qed.

(** C5: with [1 <= n <= total], the budget split over [n] selected
    repositories announces one count per repository, in their order; the
    counts are [n] in number, each is at least 1 and they sum to [total]. *)
Theorem budget_split_allocates_total (w : World) (selected_repos : list string)
    (total : Z) (s : Run) :
  randint_in_range w →
  (1 <= length selected_repos)%nat →
  Z.of_nat (length selected_repos) <= total →
  ∃ counts : list Z,
    allocations
      (trace (budget_loop w (Z.of_nat (length selected_repos)) 0 selected_repos
                total s))
      = allocations (trace s) ++ zip selected_repos counts
    ∧ length counts = length selected_repos
    ∧ Forall (λ c, 1 <= c) counts
    ∧ total_of counts = total.
Proof.
  intros Hrand Hn Htotal.
  destruct (budget_loop_allocations w selected_repos Hrand
              (Z.of_nat (length selected_repos)) 0 total s ltac:(lia) Htotal)
    as (counts & Halloc & Hlength & Hpos & Hsum).
  exists counts. repeat split; try assumption.
  apply Hsum. destruct selected_repos; [cbn in Hn; lia | congruence].
Qed.

Lemma budget_split_of_five_over_three :
  ∃ counts : list Z,
    allocations
      (trace (budget_loop world_budget5 3 0 ["A"; "B"; "C"] 5 start))
      = [] ++ zip ["A"; "B"; "C"] counts
    ∧ length counts = 3%nat
    ∧ Forall (λ c, 1 <= c) counts
    ∧ total_of counts = 5.
Proof.
  apply (budget_split_allocates_total world_budget5 ["A"; "B"; "C"] 5 start).
  - intros k a b Hab. destruct k; cbn; lia.
  - cbn. lia.
  - cbn. lia.
Defined.

(** The same budget through the whole of [process_repositories]: three
    repositories within reach, all three selected. *)
Example budget_of_five_end_to_end :
  allocations (trace (final (process_repositories world_budget5 ["A"; "B"; "C"] 0)))
  = [("A", 1); ("B", 1); ("C", 3)]
  ∧ commit_attempts (trace (final (process_repositories world_budget5 ["A"; "B"; "C"] 0)))
    = ["A"; "B"; "C"; "C"; "C"].
Proof. split; vm_compute; reflexivity. Qed.

(** ** The batch: no repository within reach *)

Lemma access_loop_available (w : World) (repositories available : list string)
    (s : Run) :
  fst (access_loop w repositories available s)
  = available ++ filter (λ p, check_access w p = true) repositories.
Proof.
  revert available s.
  induction repositories as [| p rest IH]; intros available s; cbn [access_loop].
  { rewrite app_nil_r. reflexivity. }
  destruct (check_access w p) eqn:Hp.
  - rewrite IH, filter_cons_True by exact Hp. rewrite <- app_assoc. reflexivity.
  - rewrite IH, filter_cons_False by congruence. reflexivity.
Qed.

Lemma access_loop_untouched (w : World) (repositories available : list string)
    (s : Run) :
  untouched_run s → untouched_run (snd (access_loop w repositories available s)).
Proof.
  revert available s.
  induction repositories as [| p rest IH]; intros available s Hs; [exact Hs |].
  cbn [access_loop].
  destruct (check_access w p); apply IH;
    destruct Hs as (H1 & H2 & H3 & H4 & H5); unfold untouched_run;
    read_trace; rewrite H1, H2, H3, H5; repeat split; assumption.
Qed.

Lemma access_filter_none (w : World) (repositories : list string) :
  (∀ repo_path : string, repo_path ∈ repositories → check_access w repo_path = false) →
  filter (λ p, check_access w p = true) repositories = [].
Proof.
  induction repositories as [| p rest IH]; intros Hnone; [reflexivity |].
  rewrite filter_cons_False.
  - apply IH. intros q Hq. apply Hnone. right. exact Hq.
  - rewrite (Hnone p) by left. discriminate.
Qed.

Lemma untouched_start : untouched_run start.
Proof. repeat split. Qed.

(** C6: when every candidate repository fails the access check, the batch
    ends before anything is changed: [git_commit] and [reset_changes] are
    never called, no prompt is shown, the statistics object is the one that
    was loaded, the disk and the global counter are as before; and, the
    statistics having loaded, the call returns after logging the error "no
    available repositories" as its last record. *)
Theorem no_available_repositories_aborts (w : World) (repositories : list string)
    (total_commits0 : Z) :
  (∀ repo_path : string, repo_path ∈ repositories → check_access w repo_path = false) →
  let out := process_repositories w repositories total_commits0 in
  commit_attempts (trace (final out)) = []
  ∧ rollbacks (trace (final out)) = []
  ∧ prompts (trace (final out)) = []
  ∧ changes_made (final out) = 0
  ∧ final_disk out = disk w
  ∧ global_total_commits out = total_commits0
  ∧ (∀ stats : Stats, load_stats (disk w) = Ok stats →
       returned out = Ok tt
       ∧ stats_object out = Some stats
       ∧ last (trace (final out)) = Some (Log ERROR NoAvailableRepos))
  ∧ (∀ e : exn, load_stats (disk w) = Raise e →
       returned out = Raise e ∧ trace (final out) = []).
Proof.
  intros Hnone out. subst out. unfold process_repositories.
  destruct (load_stats (disk w)) as [stats | e].
  2: { cbn. repeat split; congruence. }
  pose proof (access_loop_available w repositories [] start) as Havail.
  pose proof (access_loop_untouched w repositories [] start untouched_start)
    as (H1 & H2 & H3 & H4 & _).
  destruct (access_loop w repositories [] start) as [available s].
  cbn [fst snd] in *.
  assert (available = []) as ->.
  { rewrite Havail. cbn [app]. apply access_filter_none. exact Hnone. }
  cbn [returned final global_total_commits stats_object final_disk].
  read_trace. rewrite H1, H2, H3.
  repeat split; try assumption; try congruence.
  apply last_snoc.
Qed.

Lemma no_available_repositories_offline :
  let out := process_repositories world_offline ["A"; "B"] 7 in
  commit_attempts (trace (final out)) = []
  ∧ prompts (trace (final out)) = []
  ∧ final_disk out = empty_disk
  ∧ global_total_commits out = 7
  ∧ returned out = Ok tt
  ∧ last (trace (final out)) = Some (Log ERROR NoAvailableRepos).
Proof.
  destruct (no_available_repositories_aborts world_offline ["A"; "B"] 7
              (λ _ _, eq_refl))
    as (Hc & _ & Hp & _ & Hd & Hg & Hok & _).
  destruct (Hok fresh_stats eq_refl) as (Hret & _ & Hlast).
  repeat split; assumption.
Defined.

(** ** The batch: rolling back *)

Lemma settled_start : settled start.
Proof. repeat split. Qed.

Lemma settled_emit (e : event) (s : Run) :
  silent e = true → settled s → settled (emit e s).
Proof.
  intros He (Hp & Hr & Hc). unfold settled.
  destruct e; try discriminate He; read_trace; rewrite Hr;
    repeat split; assumption.
Qed.

Lemma settled_log (lvl : level) (m : message) (s : Run) :
  settled s → settled (log lvl m s).
Proof. apply settled_emit. reflexivity. Qed.

Lemma settled_call_git_commit (w : World) (repo_path : string) (s : Run) :
  settled s → settled (snd (call_git_commit w repo_path s)).
Proof.
  intros (Hp & Hr & Hc). unfold settled, call_git_commit.
  cbn [snd changes_made processed_repos trace].
  destruct (git_commit w (n_git_commit s) repo_path); read_trace.
  - rewrite Hp at 1. rewrite Hr, length_app. cbn [length].
    repeat split; [lia].
  - rewrite Hr. repeat split; assumption.
Qed.

Lemma settled_commit_loop (w : World) (repo_path : string) (todo : nat) (j : Z)
    (s : Run) :
  settled s → settled (commit_loop w repo_path todo j s).
Proof.
  revert j s. induction todo as [| todo IH]; intros j s Hs; [exact Hs |].
  cbn [commit_loop].
  pose proof (settled_call_git_commit w repo_path s Hs) as Hcall.
  destruct (call_git_commit w repo_path s) as [[|] s1]; cbn [snd] in Hcall.
  - apply IH, settled_log, Hcall.
  - apply settled_log, Hcall.
Qed.

Lemma settled_budget_loop (w : World) (repos : list string) (len i remaining : Z)
    (s : Run) :
  settled s → settled (budget_loop w len i repos remaining s).
Proof.
  revert i remaining s.
  induction repos as [| repo_path rest IH]; intros i remaining s Hs; [exact Hs |].
  cbn [budget_loop].
  destruct (i =? len - 1).
  - apply IH, settled_commit_loop, settled_log, Hs.
  - destruct (_ <=? 0); [apply IH, Hs |].
    unfold draw_randint.
    apply IH, settled_commit_loop, settled_log. exact Hs.
Qed.

Lemma settled_random_loop (w : World) (repos : list string) (s : Run) :
  settled s → settled (random_loop w repos s).
Proof.
  revert s. induction repos as [| repo_path rest IH]; intros s Hs; [exact Hs |].
  cbn [random_loop]. unfold calculate_commits.
  apply IH, settled_commit_loop, settled_log. exact Hs.
Qed.

Lemma settled_access_loop (w : World) (repositories available : list string)
    (s : Run) :
  settled s → settled (snd (access_loop w repositories available s)).
Proof.
  revert available s.
  induction repositories as [| p rest IH]; intros available s Hs; [exact Hs |].
  cbn [access_loop].
  destruct (check_access w p); apply IH.
  - apply settled_emit; [reflexivity |]. apply settled_log, Hs.
  - apply settled_log, settled_emit; [reflexivity |]. apply settled_log, Hs.
Qed.

Lemma settled_select_repos (w : World) (available : list string) (s : Run) :
  settled s → settled (snd (select_repos w available s)).
Proof.
  intros Hs. unfold select_repos, draw_randint. cbn [snd].
  match goal with
  | |- settled (foldl _ ?s0 ?l) =>
      assert (settled s0) as Hs0 by (apply settled_log; exact Hs);
      generalize dependent s0; generalize l
  end.
  intros l. induction l as [| repo rest IH]; intros s0 Hs0; [exact Hs0 |].
  cbn [foldl]. apply IH, settled_log, Hs0.
Qed.

Lemma rollback_loop_trace (w : World) (repos : list string) (s : Run) :
  rollbacks (trace (rollback_loop w repos s)) = rollbacks (trace s) ++ repos
  ∧ successful_commits (trace (rollback_loop w repos s))
    = successful_commits (trace s).
Proof.
  revert s. induction repos as [| repo_path rest IH]; intros s.
  { cbn. rewrite app_nil_r. split; reflexivity. }
  cbn [rollback_loop]. unfold reset_changes.
  destruct (git_reset w repo_path (changes_made s));
    match goal with
    | |- context [rollback_loop w rest ?s1] => destruct (IH s1) as [Hr Hs]
    end;
    rewrite Hr, Hs; read_trace; rewrite <- app_assoc; split; reflexivity.
Qed.

(** The elements of a set built from a list are the list without its
    repetitions, in some order. *)
Lemma py_set_distinct (l : list string) : py_set l ≡ₚ remove_dups l.
Proof.
  unfold py_set. apply NoDup_Permutation.
  - apply NoDup_elements.
  - apply NoDup_remove_dups.
  - intros x.
    rewrite elem_of_elements, elem_of_list_to_set, elem_of_remove_dups.
    reflexivity.
Qed.

Lemma conclude_rollbacks (w : World) (total_commits0 : Z) (s : Run) :
  reply_keep w ≠ "да" →
  settled s →
  rollbacks (trace (snd (conclude w total_commits0 s)))
  ≡ₚ remove_dups (successful_commits (trace (snd (conclude w total_commits0 s)))).
Proof.
  intros Hkeep (Hp & Hr & Hc). unfold conclude.
  apply String.eqb_neq in Hkeep. rewrite Hkeep. cbn [negb].
  destruct (Z.ltb_spec 0 (changes_made s)) as [Hsome | Hnone]; cbn [snd].
  - match goal with
    | |- context [rollback_loop w ?l ?s1] =>
        destruct (rollback_loop_trace w l s1) as [Hroll Hsucc]
    end.
    read_trace. rewrite Hroll, Hsucc. read_trace.
    rewrite Hr, <- Hp. cbn [app]. apply py_set_distinct.
  - read_trace. rewrite Hr, <- Hp.
    assert (processed_repos s = []) as ->.
    { destruct (processed_repos s); [reflexivity | cbn in Hc; lia]. }
    reflexivity.
Qed.

(** C7: when the answer to the last prompt is not "да", [reset_changes] is
    called once for each distinct repository that received at least one
    successful commit, and for no other: the calls are, in some order, the
    repositories of the successful commits without repetition.  (The
    example that follows has 4 commits across 2 repositories and 2
    calls.) *)
Theorem rollback_once_per_repository (w : World) (repositories : list string)
    (total_commits0 : Z) :
  reply_keep w ≠ "да" →
  let t := trace (final (process_repositories w repositories total_commits0)) in
  rollbacks t ≡ₚ remove_dups (successful_commits t)
  ∧ NoDup (rollbacks t)
  ∧ ∀ repo_path : string,
      repo_path ∈ rollbacks t ↔ repo_path ∈ successful_commits t.
Proof.
  intros Hkeep t.
  assert (rollbacks t ≡ₚ remove_dups (successful_commits t)) as Hperm.
  { subst t. unfold process_repositories.
    destruct (load_stats (disk w)) as [stats | e]; [| reflexivity].
    pose proof (settled_access_loop w repositories [] start settled_start) as Hacc.
    pose proof (access_loop_untouched w repositories [] start untouched_start)
      as (_ & Hr & _ & _ & Hs).
    destruct (access_loop w repositories [] start) as [available s].
    cbn [snd] in Hacc, Hr, Hs.
    destruct available as [| a available].
    { cbn [final]. read_trace. rewrite Hr, Hs. reflexivity. }
    apply (settled_emit (Input AskCommitControl)) in Hacc; [| reflexivity].
    destruct (String.eqb (reply_commit_control w) "да").
    - apply (settled_emit (Input AskTotal)) in Hacc; [| reflexivity].
      apply (settled_select_repos w (a :: available)) in Hacc.
      destruct (select_repos w (a :: available) _) as [selected s1].
      cbn [snd] in Hacc.
      apply (settled_budget_loop w selected (Z.of_nat (length selected)) 0
               (reply_total w)) in Hacc.
      pose proof (conclude_rollbacks w total_commits0 _ Hkeep Hacc) as Hconc.
      destruct (conclude w total_commits0 _) as [total s2]. exact Hconc.
    - apply (settled_select_repos w (a :: available)) in Hacc.
      destruct (select_repos w (a :: available) _) as [selected s1].
      cbn [snd] in Hacc.
      apply (settled_random_loop w selected) in Hacc.
      pose proof (conclude_rollbacks w total_commits0 _ Hkeep Hacc) as Hconc.
      destruct (conclude w total_commits0 _) as [total s2]. exact Hconc. }
  split; [exact Hperm |]. split.
  - rewrite Hperm. apply NoDup_remove_dups.
  - intros repo_path. rewrite Hperm, elem_of_remove_dups. reflexivity.
Qed.

Lemma rollback_of_four_commits_in_two_repositories :
  let t := trace (final (process_repositories world_four_commits ["A"; "B"] 0)) in
  length (successful_commits t) = 4%nat
  ∧ length (rollbacks t) = 2%nat
  ∧ NoDup (rollbacks t).
Proof.
  cbv zeta.
  destruct (rollback_once_per_repository world_four_commits ["A"; "B"] 0
              ltac:(discriminate)) as (Hperm & Hnodup & _).
  split; [vm_compute; reflexivity |]. split; [| exact Hnodup].
  rewrite Hperm. vm_compute. reflexivity.
Defined.

(** ** The complexity score *)

(** C8: for a file that can be read the score is the weighted sum
    [lines*0.1 + functions*2 + classes*3 + conditionals*1.5 + loops*2] of the
    counts of the pattern scan, in binary64 arithmetic; a file that cannot be
    read scores 0; the empty text scores 0; a text of 10 lines with one
    counted function definition and nothing else counted scores 3.0. *)
Theorem calculate_file_complexity_score (isspace isalnum : N → bool)
    (read : string → result text) (file_path : string) :
  calculate_file_complexity isspace isalnum read file_path
  = match read file_path with
    | Raise _ => Int 0
    | Ok content =>
        let c := scan isspace isalnum content in
        Float (weighted_score (c_lines c) (c_functions c) (c_classes c)
                 (c_conditionals c) (c_loops c))
    end
  ∧ (∀ e : exn, read file_path = Raise e →
       calculate_file_complexity isspace isalnum read file_path = Int 0)
  ∧ (read file_path = Ok [] →
       calculate_file_complexity isspace isalnum read file_path = Float 0
       ∧ equals_zero (calculate_file_complexity isspace isalnum read file_path)
         = true)
  ∧ (∀ content : text,
       read file_path = Ok content →
       scan isspace isalnum content
       = {| c_lines := 10; c_functions := 1; c_classes := 0;
            c_conditionals := 0; c_loops := 0 |} →
       calculate_file_complexity isspace isalnum read file_path = Float 3).
Proof.
  unfold calculate_file_complexity.
  split; [destruct (read file_path); reflexivity |].
  split; [intros e ->; reflexivity |].
  split; [intros ->; split; reflexivity |].
  intros content -> Hscan. cbv zeta. rewrite Hscan. reflexivity.
Qed.

Lemma calculate_file_complexity_of_ten_lines :
  scan ascii_isspace ascii_isalnum ten_lines
  = {| c_lines := 10; c_functions := 1; c_classes := 0;
       c_conditionals := 0; c_loops := 0 |}
  ∧ calculate_file_complexity ascii_isspace ascii_isalnum (λ _, Ok ten_lines)
      "area.py" = Float 3.
Proof.
  assert (scan ascii_isspace ascii_isalnum ten_lines
          = {| c_lines := 10; c_functions := 1; c_classes := 0;
               c_conditionals := 0; c_loops := 0 |}) as Hscan
    by (vm_compute; reflexivity).
  split; [exact Hscan |].
  exact (proj2 (proj2 (proj2 (calculate_file_complexity_score ascii_isspace
           ascii_isalnum (λ _, Ok ten_lines) "area.py"))) ten_lines eq_refl Hscan).
Defined.

(** * Further properties *)

(** ** The streak machine, continued *)

Lemma add_commit_streak (repo_path file_path commit_type timestamp : string)
    (st : Stats) (disk : Disk) :
  commit_streaks (fst (fst (add_commit repo_path file_path commit_type timestamp st disk)))
    = commit_streaks st
  ∨ ∃ st0 st' : Stats,
      commit_streaks st0 = commit_streaks st
      ∧ update_commit_streak timestamp st0 = Ok st'
      ∧ commit_streaks (fst (fst (add_commit repo_path file_path commit_type timestamp st disk)))
        = commit_streaks st'.
Proof.
  unfold add_commit.
  destruct (strptime_datetime timestamp) as [t |]; [| left; reflexivity].
  destruct (list_incr (hour t) _) as [hs |]; [| left; reflexivity].
  destruct (list_incr (weekday (dt_date t)) _) as [ds |]; [| left; reflexivity].
  match goal with
  | |- context [update_commit_streak timestamp ?s] =>
      destruct (update_commit_streak timestamp s) as [st' |] eqn:Hupd;
      [right; exists s, st' | left; reflexivity]
  end.
  split; [reflexivity |]. split; [exact Hupd |].
  destruct (save_stats st' disk). reflexivity.
Qed.

(** X1: From the fresh store on, whatever is recorded and whichever calls raise:
    the two counters of the streak are never negative, and [current] exceeds
    [longest] only while it is 1. *)
Theorem recorded_streak_bounds (calls : list commit_call) (disk : Disk) :
  let cs := commit_streaks (fst (record_all calls (fresh_stats, disk))) in
  0 <= current cs ∧ 0 <= longest cs ∧ (current cs <= longest cs ∨ current cs = 1).
Proof.
  cbv zeta.
  set (inv := λ cs : CommitStreak,
         0 <= current cs ∧ 0 <= longest cs
         ∧ (current cs <= longest cs ∨ current cs = 1)).
  assert (∀ (timestamp : string) (st st' : Stats),
            inv (commit_streaks st) →
            update_commit_streak timestamp st = Ok st' →
            inv (commit_streaks st')) as Hstep.
  { unfold update_commit_streak, inv. intros timestamp st st'.
    destruct (strptime_datetime timestamp) as [t |]; [| discriminate].
    destruct (stored_last_date (commit_streaks st)) as [last |]; [| discriminate].
    intros Hinv [= <-]. cbn [commit_streaks set_commit_streaks current longest].
    unfold streak_counters. destruct last as [ld |]; [| cbn; lia].
    destruct (toordinal (dt_date t) - toordinal ld =? 1); [cbn; lia |].
    destruct (1 <? toordinal (dt_date t) - toordinal ld); [cbn; lia | exact Hinv]. }
  assert (∀ sd : Stats * Disk,
            inv (commit_streaks (fst sd)) →
            inv (commit_streaks (fst (record_all calls sd)))) as Hall.
  { induction calls as [| c calls IH]; intros sd Hsd; [exact Hsd |].
    cbn [record_all foldl]. apply IH. unfold record_call.
    destruct (add_commit_streak (call_repo c) (call_file c) (call_type c)
                (call_timestamp c) (fst sd) (snd sd))
      as [-> | (st0 & st' & Hsame & Hupd & ->)]; [exact Hsd |].
    apply (Hstep (call_timestamp c) st0 st'); [rewrite Hsame; exact Hsd | exact Hupd]. }
  apply (Hall (fresh_stats, disk)). unfold inv. cbn. lia.
Qed.



(** X3: A second commit on the day of the last one changes nothing at all in the
    store: the update is idempotent on a calendar day. *)
Theorem same_day_update_is_idle (ts1 ts2 : string) (t1 t2 : datetime)
    (st st1 : Stats) :
  update_commit_streak ts1 st = Ok st1 →
  strptime_datetime ts1 = Some t1 →
  strptime_datetime ts2 = Some t2 →
  dt_date t2 = dt_date t1 →
  update_commit_streak ts2 st1 = Ok st1.
Proof.
  intros Hupd Ht1 Ht2 Hsame.
  assert (stored_last_date (commit_streaks st1) = Ok (Some (dt_date t1))
          ∧ last_commit_date (commit_streaks st1)
            = Some (strftime_date (dt_date t1))) as [Hstored Hlast].
  { revert Hupd. unfold update_commit_streak. rewrite Ht1.
    destruct (stored_last_date (commit_streaks st)); [| discriminate].
    intros [= <-]. cbn [commit_streaks set_commit_streaks last_commit_date].
    split; [| reflexivity].
    apply (stored_last_date_set _ (strftime_date (dt_date t1))); [reflexivity |].
    apply strptime_strftime_date. exact (strptime_datetime_valid _ _ Ht1). }
  rewrite (update_commit_streak_ok ts2 t2 st1 _ Ht2 Hstored).
  unfold streak_counters. rewrite Hsame, Z.sub_diag. cbn [Z.eqb Z.ltb Z.compare].
  rewrite <- Hlast. destruct st1 as [? ? ? ? ? ? [c l d]]. reflexivity.
Qed.

Lemma same_day_update_is_idle_witness :
  update_commit_streak "2024-01-05 23:10:00"
    (set_commit_streaks
       {| current := 1; longest := 4; last_commit_date := Some "2024-01-05" |}
       fresh_stats)
  = Ok (set_commit_streaks
          {| current := 1; longest := 4; last_commit_date := Some "2024-01-05" |}
          fresh_stats).
Proof.
  exact (same_day_update_is_idle "2024-01-05 08:00:00" "2024-01-05 23:10:00"
           {| dt_date := mkdate 2024 1 5; hour := 8; minute := 0; second := 0 |}
           {| dt_date := mkdate 2024 1 5; hour := 23; minute := 10; second := 0 |}
           (set_commit_streaks
              {| current := 2; longest := 4; last_commit_date := Some "2024-01-01" |}
              fresh_stats)
           _ eq_refl eq_refl eq_refl eq_refl).
Defined.




(** ** Recording commits, call after call *)

(** What every way out of [add_commit] leaves under the repository. *)
Lemma add_commit_entry (repo_path file_path commit_type timestamp : string)
    (st : Stats) (disk : Disk) :
  ∃ r' : RepoStats,
    repositories (fst (fst (add_commit repo_path file_path commit_type timestamp
                              st disk)))
      = <[repo_path := r']> (repositories st)
    ∧ repo_total_commits r' = repo_total_commits (repo_entry st repo_path) + 1
    ∧ files r'
      = <[file_path := touch_file timestamp (file_entry st repo_path file_path)]>
          (files (repo_entry st repo_path)).
Proof.
  unfold add_commit, repo_entry, file_entry.
  destruct (strptime_datetime timestamp) as [t |];
    [| eexists; repeat split; reflexivity].
  destruct (list_incr (hour t) _) as [hs |];
    [| eexists; repeat split; reflexivity].
  destruct (list_incr (weekday (dt_date t)) _) as [ds |];
    [| eexists; repeat split; reflexivity].
  match goal with
  | |- context [update_commit_streak timestamp ?s] =>
      destruct (update_commit_streak timestamp s) as [st' |] eqn:Hupd
  end.
  - destruct (save_stats st' disk) as [disk' res]. cbn [fst].
    rewrite (proj1 (update_commit_streak_frame _ _ _ Hupd)).
    eexists; repeat split; reflexivity.
  - eexists; repeat split; reflexivity.
Qed.

















Lemma record_call_entries (c : commit_call) (sd : Stats * Disk)
    (repo_path file_path : string) :
  repo_total_commits (repo_entry (fst (record_call c sd)) repo_path)
  = repo_total_commits (repo_entry (fst sd) repo_path)
    + (if decide (call_repo c = repo_path) then 1 else 0)
  ∧ commits (file_entry (fst (record_call c sd)) repo_path file_path)
    = commits (file_entry (fst sd) repo_path file_path)
      + (if decide (call_repo c = repo_path ∧ call_file c = file_path)
         then 1 else 0).
Proof.
  unfold record_call.
  destruct (add_commit_entry (call_repo c) (call_file c) (call_type c)
              (call_timestamp c) (fst sd) (snd sd)) as (r' & Hrepos & Htotal & Hfiles).
  unfold file_entry, repo_entry in *. rewrite Hrepos.
  destruct (decide (call_repo c = repo_path)) as [<- | Hne].
  - rewrite lookup_insert_eq. cbn [default from_option id].
    split; [exact Htotal |]. rewrite Hfiles.
    destruct (decide (call_file c = file_path)) as [<- | Hnf].
    + rewrite lookup_insert_eq, decide_True by (split; reflexivity).
      reflexivity.
    + rewrite lookup_insert_ne by exact Hnf.
      rewrite decide_False by (intros [_ ?]; contradiction). lia.
  - rewrite lookup_insert_ne by exact Hne.
    rewrite decide_False by (intros [? _]; contradiction). split; lia.
Qed.

Lemma record_all_entries (calls : list commit_call) (repo_path file_path : string) :
  ∀ sd : Stats * Disk,
    repo_total_commits (repo_entry (fst (record_all calls sd)) repo_path)
    = repo_total_commits (repo_entry (fst sd) repo_path)
      + calls_for_repo repo_path calls
    ∧ commits (file_entry (fst (record_all calls sd)) repo_path file_path)
      = commits (file_entry (fst sd) repo_path file_path)
        + calls_for_file repo_path file_path calls.
Proof.
  unfold calls_for_repo, calls_for_file.
  induction calls as [| c calls IH]; intros sd; [cbn; split; lia |].
  cbn [record_all foldl]. fold (record_all calls (record_call c sd)).
  destruct (IH (record_call c sd)) as [-> ->].
  destruct (record_call_entries c sd repo_path file_path) as [-> ->].
  rewrite !filter_cons.
  destruct (decide (call_repo c = repo_path));
    destruct (decide (call_repo c = repo_path ∧ call_file c = file_path));
    cbn [length]; split; lia.
Qed.

(** X10: From the fresh store, the [total_commits] of a repository is the number
    of calls that named it and the [commits] of a file the number of calls
    that named the repository and the file, whether or not the calls raised;
    an entry that does not exist stands for zero calls. *)
Theorem entries_count_calls (calls : list commit_call) (disk : Disk)
    (repo_path file_path : string) :
  let st := fst (record_all calls (fresh_stats, disk)) in
  repo_total_commits (repo_entry st repo_path) = calls_for_repo repo_path calls
  ∧ commits (file_entry st repo_path file_path)
    = calls_for_file repo_path file_path calls.
Proof.
  cbv zeta.
  destruct (record_all_entries calls repo_path file_path (fresh_stats, disk))
    as [-> ->].
  split; reflexivity.
Qed.




(** ** The batch: commits, counts and what is left behind *)

Lemma commit_loop_run (w : World) (repo_path : string) (todo : nat) :
  ∀ (j : Z) (s : Run),
    let m := leading_successes w repo_path (n_git_commit s) todo in
    let s' := commit_loop w repo_path todo j s in
    successful_commits (trace s')
      = successful_commits (trace s) ++ replicate m repo_path
    ∧ commit_attempts (trace s')
      = commit_attempts (trace s)
        ++ replicate (if (m <? todo)%nat then S m else m) repo_path
    ∧ changes_made s' = changes_made s + Z.of_nat m
    ∧ n_git_commit s'
      = (n_git_commit s + (if (m <? todo)%nat then S m else m))%nat
    ∧ n_randint s' = n_randint s.
Proof.
  induction todo as [| todo IH]; intros j s; cbv zeta.
  { cbn. rewrite !app_nil_r. repeat split; lia. }
  cbn [commit_loop leading_successes]. unfold call_git_commit.
  destruct (git_commit w (n_git_commit s) repo_path) eqn:Hok.
  - match goal with
    | |- context [commit_loop w repo_path todo (j + 1) ?s1] =>
        destruct (IH (j + 1) s1) as (Hs & Ha & Hc & Hn & Hr)
    end.
    cbv zeta in Hs, Ha, Hc, Hn, Hr. rewrite Hs, Ha, Hc, Hn, Hr. read_trace.
    cbn [n_git_commit changes_made n_randint log emit].
    replace (S (leading_successes w repo_path (S (n_git_commit s)) todo) <? S todo)%nat
      with (leading_successes w repo_path (S (n_git_commit s)) todo <? todo)%nat
      by reflexivity.
    rewrite <- !app_assoc.
    destruct (_ <? todo)%nat; cbn [replicate app]; repeat split; lia.
  - read_trace. cbn [replicate n_git_commit changes_made n_randint log emit].
    repeat split; try lia. change (0 <? S todo)%nat with true. cbv iota. lia.
Qed.

(** X12: [git_commit] is called for a repository until its count is used up or a
    call fails, whichever comes first: the successful commits are the calls
    that succeed in a row, they are followed by one failed call at most, and
    [changes_made] grows by the successful ones. *)
Theorem commit_loop_stops_at_first_failure (w : World) (repo_path : string)
    (todo : nat) (j : Z) (s : Run) :
  let m := leading_successes w repo_path (n_git_commit s) todo in
  let s' := commit_loop w repo_path todo j s in
  (m <= todo)%nat
  ∧ (∀ i : nat, (i < m)%nat → git_commit w (n_git_commit s + i) repo_path = true)
  ∧ ((m < todo)%nat → git_commit w (n_git_commit s + m) repo_path = false)
  ∧ successful_commits (trace s')
    = successful_commits (trace s) ++ replicate m repo_path
  ∧ commit_attempts (trace s')
    = commit_attempts (trace s)
      ++ replicate (if (m <? todo)%nat then S m else m) repo_path
  ∧ changes_made s' = changes_made s + Z.of_nat m.
Proof.
  cbv zeta.
  destruct (commit_loop_run w repo_path todo j s) as (Hs & Ha & Hc & _).
  cbv zeta in Hs, Ha, Hc.
  split; [| split; [| split; [| repeat split; assumption]]].
  - generalize (n_git_commit s). clear. induction todo as [| todo IH]; intros k;
      cbn [leading_successes]; [lia |].
    destruct (git_commit w k repo_path); [specialize (IH (S k)) |]; lia.
  - generalize (n_git_commit s). clear. induction todo as [| todo IH]; intros k i;
      cbn [leading_successes]; [lia |].
    destruct (git_commit w k repo_path) eqn:Hk; [| lia].
    destruct i as [| i]; intros Hi.
    + rewrite Nat.add_0_r. exact Hk.
    + replace (k + S i)%nat with (S k + i)%nat by lia. apply IH. lia.
  - generalize (n_git_commit s). clear. induction todo as [| todo IH]; intros k;
      cbn [leading_successes]; [lia |].
    destruct (git_commit w k repo_path) eqn:Hk.
    + intros Hm. replace (k + S _)%nat
        with (S k + leading_successes w repo_path (S k) todo)%nat by lia.
      apply IH. lia.
    + intros _. rewrite Nat.add_0_r. exact Hk.
Qed.

Lemma budget_loop_announces (w : World) (repos : list string) :
  ∀ (len i remaining : Z) (s : Run),
    len = i + Z.of_nat (length repos) →
    repos ≠ [] →
    ∃ announced : list (string * Z),
      allocations (trace (budget_loop w len i repos remaining s))
        = allocations (trace s) ++ announced
      ∧ sublist (announced.*1) repos
      ∧ last (announced.*1) = last repos
      ∧ total_of (announced.*2) = remaining.
Proof.
  induction repos as [| repo_path rest IH]; intros len i remaining s Hlen Hne;
    [congruence |].
  cbn [length] in Hlen. cbn [budget_loop].
  destruct (Z.eqb_spec i (len - 1)) as [Hlast | Hnotlast].
  - assert (rest = []) as -> by (destruct rest; [reflexivity | cbn in Hlen; lia]).
    exists [(repo_path, remaining)]. cbn [budget_loop].
    rewrite commit_loop_allocations. read_trace.
    split; [reflexivity |]. split; [reflexivity |]. split; [reflexivity |].
    cbn. lia.
  - assert (rest ≠ []) as Hrest by (intros ->; cbn in Hlen; lia).
    assert (last (repo_path :: rest) = last rest) as Hlastrest
      by (destruct rest; [congruence | reflexivity]).
    destruct (_ <=? 0).
    + destruct (IH len (i + 1) remaining s ltac:(lia) Hrest)
        as (announced & Halloc & Hsub & Hl & Hsum).
      exists announced. split; [exact Halloc |].
      split; [apply sublist_cons; exact Hsub |].
      split; [congruence | exact Hsum].
    + unfold draw_randint.
      set (c := randint w (n_randint s) 1 _).
      match goal with
      | |- context [budget_loop w len (i + 1) rest (remaining - c) ?s1] =>
          destruct (IH len (i + 1) (remaining - c) s1 ltac:(lia) Hrest)
            as (announced & Halloc & Hsub & Hl & Hsum)
      end.
      exists ((repo_path, c) :: announced).
      rewrite Halloc, commit_loop_allocations. read_trace.
      split; [rewrite <- app_assoc; reflexivity |].
      split; [cbn [fmap list_fmap fst]; apply sublist_skip; exact Hsub |].
      split.
      * assert (is_Some (last rest)) as [x Hx]
          by (apply last_is_Some; exact Hrest).
        rewrite Hlastrest, <- Hl. rewrite Hx in Hl. cbn [fmap list_fmap fst].
        destruct (announced.*1) as [| a l]; [discriminate Hl | reflexivity].
      * cbn [fmap list_fmap snd total_of foldr]. fold (total_of (announced.*2)).
        lia.
Qed.

(** X13: Whatever total is typed and whatever [random.randint] returns, the
    budget is handed out in full: the announced counts add up to the total,
    they go to selected repositories in their order, and the last selected
    repository is always among them, with all that is left.  When the total
    is smaller than the number of repositories the batch is not called off:
    repositories at the front are passed over. *)
Theorem budget_is_handed_out_in_full (w : World) (selected_repos : list string)
    (total : Z) (s : Run) :
  selected_repos ≠ [] →
  ∃ announced : list (string * Z),
    allocations
      (trace (budget_loop w (Z.of_nat (length selected_repos)) 0 selected_repos
                total s))
      = allocations (trace s) ++ announced
    ∧ sublist (announced.*1) selected_repos
    ∧ last (announced.*1) = last selected_repos
    ∧ total_of (announced.*2) = total.
Proof.
  intros Hne.
  exact (budget_loop_announces w selected_repos (Z.of_nat (length selected_repos))
           0 total s ltac:(lia) Hne).
Qed.

Lemma budget_of_two_over_three :
  allocations (trace (budget_loop world_budget2 3 0 ["A"; "B"; "C"] 2 start))
    = [("B", 1); ("C", 1)]
  ∧ ∃ announced : list (string * Z),
      allocations (trace (budget_loop world_budget2 3 0 ["A"; "B"; "C"] 2 start))
        = [] ++ announced
      ∧ sublist (announced.*1) ["A"; "B"; "C"]
      ∧ last (announced.*1) = Some "C"
      ∧ total_of (announced.*2) = 2.
Proof.
  split; [vm_compute; reflexivity |].
  exact (budget_is_handed_out_in_full world_budget2 ["A"; "B"; "C"] 2 start
           ltac:(discriminate)).
Defined.

Lemma leading_successes_all (w : World) (repo_path : string) (todo : nat) :
  (∀ (k : nat) (p : string), git_commit w k p = true) →
  ∀ k : nat, leading_successes w repo_path k todo = todo.
Proof.
  intros Hall. induction todo as [| todo IH]; intros k; [reflexivity |].
  cbn [leading_successes]. rewrite Hall, IH. reflexivity.
Qed.

Lemma budget_loop_all_succeed (w : World) (repos : list string) :
  randint_in_range w →
  (∀ (k : nat) (p : string), git_commit w k p = true) →
  ∀ (len i remaining : Z) (s : Run),
    len = i + Z.of_nat (length repos) →
    repos ≠ [] →
    1 <= remaining →
    changes_made (budget_loop w len i repos remaining s)
    = changes_made s + remaining.
Proof.
  intros Hrand Hall.
  induction repos as [| repo_path rest IH];
    intros len i remaining s Hlen Hne Hrem; [congruence |].
  cbn [length] in Hlen. cbn [budget_loop].
  destruct (Z.eqb_spec i (len - 1)) as [Hlast | Hnotlast].
  - assert (rest = []) as -> by (destruct rest; [reflexivity | cbn in Hlen; lia]).
    cbn [budget_loop].
    destruct (commit_loop_run w repo_path (Z.to_nat remaining) 0
                (log INFO (Processing repo_path remaining) s))
      as (_ & _ & Hc & _).
    cbv zeta in Hc. rewrite Hc, leading_successes_all by exact Hall.
    cbn [changes_made log emit]. lia.
  - assert (rest ≠ []) as Hrest by (intros ->; cbn in Hlen; lia).
    destruct (Z.leb_spec (Z.min (remaining - (len - i - 1)) (remaining - 1)) 0)
      as [Hno | Hyes].
    + apply IH; [lia | exact Hrest | exact Hrem].
    + unfold draw_randint.
      pose proof (Hrand (n_randint s) 1
                    (Z.min (remaining - (len - i - 1)) (remaining - 1))
                    ltac:(lia)) as Hc.
      set (c := randint w (n_randint s) 1 _) in *.
      rewrite IH by (try exact Hrest; lia).
      match goal with
      | |- context [commit_loop w repo_path (Z.to_nat c) 0 ?s1] =>
          destruct (commit_loop_run w repo_path (Z.to_nat c) 0 s1)
            as (_ & _ & Hcm & _)
      end.
      cbv zeta in Hcm. rewrite Hcm, leading_successes_all by exact Hall.
      cbn [changes_made log emit]. lia.
Qed.

(** X14: With a total of at least 1 and every commit going through, the budget
    loop makes exactly as many commits as the total, also when the total is
    smaller than the number of selected repositories. *)
Theorem budget_is_spent_when_commits_succeed (w : World)
    (selected_repos : list string) (total : Z) (s : Run) :
  randint_in_range w →
  (∀ (k : nat) (p : string), git_commit w k p = true) →
  selected_repos ≠ [] →
  1 <= total →
  settled s →
  let s' := budget_loop w (Z.of_nat (length selected_repos)) 0 selected_repos
              total s in
  changes_made s' = changes_made s + total
  ∧ Z.of_nat (length (successful_commits (trace s')))
    = Z.of_nat (length (successful_commits (trace s))) + total.
Proof.
  intros Hrand Hall Hne Htotal Hs. cbv zeta.
  pose proof (budget_loop_all_succeed w selected_repos Hrand Hall
                (Z.of_nat (length selected_repos)) 0 total s ltac:(lia) Hne Htotal)
    as Hc.
  split; [exact Hc |].
  pose proof (settled_budget_loop w selected_repos
                (Z.of_nat (length selected_repos)) 0 total s Hs)
    as (Hp' & _ & Hc').
  destruct Hs as (Hp & _ & Hcs).
  rewrite <- Hp', <- Hp. lia.
Qed.

Lemma budget_of_two_is_spent :
  let s' := budget_loop world_budget2 3 0 ["A"; "B"; "C"] 2 start in
  changes_made s' = 0 + 2
  ∧ Z.of_nat (length (successful_commits (trace s'))) = 0 + 2.
Proof.
  apply (budget_is_spent_when_commits_succeed world_budget2 ["A"; "B"; "C"] 2
           start).
  - intros k a b Hab. destruct k; cbn; lia.
  - reflexivity.
  - discriminate.
  - lia.
  - exact settled_start.
Defined.

Lemma random_loop_allocations (w : World) (repos : list string) :
  (∀ k : nat, 0 <= expovariate_floor w k) →
  ∀ s : Run,
    ∃ counts : list Z,
      allocations (trace (random_loop w repos s))
        = allocations (trace s) ++ zip repos counts
      ∧ length counts = length repos
      ∧ Forall (λ c, 1 <= c <= 50) counts.
Proof.
  intros Hfloor. induction repos as [| repo_path rest IH]; intros s.
  { exists []. cbn. rewrite app_nil_r. repeat split. constructor. }
  cbn [random_loop]. unfold calculate_commits.
  match goal with
  | |- context [random_loop w rest ?s1] =>
      destruct (IH s1) as (counts & Halloc & Hlength & Hall)
  end.
  exists (1 + Z.min 49 (expovariate_floor w (n_expovariate s)) :: counts).
  rewrite Halloc, commit_loop_allocations. read_trace.
  split; [rewrite <- app_assoc; reflexivity |].
  split; [cbn; congruence |].
  constructor; [| exact Hall].
  specialize (Hfloor (n_expovariate s)). lia.
Qed.

(** X15: Without a typed budget every selected repository is announced, in the
    order of the selection, with a count between 1 and 50 (the floor of an
    exponential variate is not negative). *)
Theorem random_counts_are_between_1_and_50 (w : World)
    (selected_repos : list string) (s : Run) :
  (∀ k : nat, 0 <= expovariate_floor w k) →
  ∃ counts : list Z,
    allocations (trace (random_loop w selected_repos s))
      = allocations (trace s) ++ zip selected_repos counts
    ∧ length counts = length selected_repos
    ∧ Forall (λ c, 1 <= c <= 50) counts.
Proof. intros Hfloor. exact (random_loop_allocations w selected_repos Hfloor s). Qed.

Lemma random_counts_of_three_repositories :
  allocations (trace (random_loop world_budget2 ["A"; "B"; "C"] start))
    = [("A", 1); ("B", 41); ("C", 50)]
  ∧ ∃ counts : list Z,
      allocations (trace (random_loop world_budget2 ["A"; "B"; "C"] start))
        = [] ++ zip ["A"; "B"; "C"] counts
      ∧ length counts = 3%nat
      ∧ Forall (λ c, 1 <= c <= 50) counts.
Proof.
  split; [vm_compute; reflexivity |].
  apply (random_counts_are_between_1_and_50 world_budget2 ["A"; "B"; "C"] start).
  intros k. cbn. lia.
Defined.

Lemma reset_calls_app (t1 t2 : list event) :
  reset_calls (t1 ++ t2) = reset_calls t1 ++ reset_calls t2.
Proof. apply omap_app. Qed.

Lemma rollbacks_of_reset_calls (t : list event) :
  rollbacks t = (reset_calls t).*1.
Proof.
  induction t as [| e t IH]; [reflexivity |].
  destruct e; cbn [rollbacks reset_calls omap list_omap] in *;
    try exact IH.
  cbn [fmap list_fmap fst]. f_equal. exact IH.
Qed.

Lemma rollback_loop_calls (w : World) (repos : list string) (s : Run) :
  reset_calls (trace (rollback_loop w repos s))
    = reset_calls (trace s) ++ ((λ p, (p, changes_made s)) <$> repos)
  ∧ changes_made (rollback_loop w repos s) = changes_made s.
Proof.
  revert s. induction repos as [| repo_path rest IH]; intros s.
  { cbn. rewrite app_nil_r. split; reflexivity. }
  cbn [rollback_loop]. unfold reset_changes.
  destruct (git_reset w repo_path (changes_made s));
    match goal with
    | |- context [rollback_loop w rest ?s1] => destruct (IH s1) as [Hr Hc]
    end;
    rewrite Hr, Hc; cbn [trace emit log changes_made];
    rewrite !reset_calls_app; cbn [reset_calls omap list_omap fmap list_fmap];
    rewrite ?app_nil_r, <- app_assoc; split; reflexivity.
Qed.

(** What [conclude] makes of a batch whose bookkeeping is in order. *)
Lemma conclude_outcome (w : World) (total_commits0 : Z) (s : Run) :
  settled s →
  let n := Z.of_nat (length (successful_commits (trace s))) in
  let out := conclude w total_commits0 s in
  fst out
  = (if 0 <? n then if String.eqb (reply_keep w) "да" then n else 0
     else total_commits0)
  ∧ successful_commits (trace (snd out)) = successful_commits (trace s)
  ∧ changes_made (snd out) = n
  ∧ Forall (λ call, snd call = n) (reset_calls (trace (snd out))).
Proof.
  intros (Hp & Hr & Hc). cbv zeta.
  assert (Z.of_nat (length (successful_commits (trace s))) = changes_made s)
    as -> by (rewrite <- Hp; symmetry; exact Hc).
  assert (reset_calls (trace s) = []) as Hnone.
  { apply (fmap_nil_inv fst). rewrite <- rollbacks_of_reset_calls. exact Hr. }
  unfold conclude.
  destruct (0 <? changes_made s); [| cbn [fst snd]; read_trace;
    cbn [changes_made log emit]; rewrite !reset_calls_app, Hnone;
    repeat split; constructor].
  destruct (String.eqb (reply_keep w) "да"); cbn [negb fst snd].
  - read_trace. cbn [changes_made log emit]. rewrite !reset_calls_app, Hnone.
    repeat split; constructor.
  - match goal with
    | |- context [rollback_loop w ?l ?s1] =>
        destruct (rollback_loop_trace w l s1) as [_ Hsucc];
        destruct (rollback_loop_calls w l s1) as [Hcalls Hch]
    end.
    read_trace. cbn [changes_made log emit].
    rewrite !reset_calls_app, Hsucc, Hcalls, Hch. read_trace.
    cbn [trace emit changes_made] in *.
    rewrite !reset_calls_app, Hnone. cbn [reset_calls omap list_omap app].
    repeat split. apply Forall_fmap, Forall_forall. intros p _. reflexivity.
Qed.

(** The two ways a call of [process_repositories] can go: it ends before the
    first prompt with nothing done, or it reaches [conclude] with its
    bookkeeping in order. *)
Lemma process_repositories_cases (w : World) (repositories : list string)
    (total_commits0 : Z) :
  let out := process_repositories w repositories total_commits0 in
  (successful_commits (trace (final out)) = []
   ∧ reset_calls (trace (final out)) = []
   ∧ changes_made (final out) = 0
   ∧ global_total_commits out = total_commits0)
  ∨ ∃ s : Run,
      settled s
      ∧ final out = snd (conclude w total_commits0 s)
      ∧ global_total_commits out = fst (conclude w total_commits0 s).
Proof.
  cbv zeta. unfold process_repositories.
  destruct (load_stats (disk w)) as [stats | e];
    [| left; repeat split; reflexivity].
  pose proof (settled_access_loop w repositories [] start settled_start) as Hacc.
  pose proof (access_loop_untouched w repositories [] start untouched_start)
    as (_ & Hr & _ & Hch & Hs).
  destruct (access_loop w repositories [] start) as [available s].
  cbn [snd] in Hacc, Hr, Hs, Hch.
  destruct available as [| a available].
  { left. cbn [final global_total_commits]. read_trace.
    cbn [changes_made log emit]. rewrite reset_calls_app.
    assert (reset_calls (trace s) = []) as ->.
    { apply (fmap_nil_inv fst). rewrite <- rollbacks_of_reset_calls. exact Hr. }
    repeat split; assumption. }
  right.
  apply (settled_emit (Input AskCommitControl)) in Hacc; [| reflexivity].
  destruct (String.eqb (reply_commit_control w) "да").
  - apply (settled_emit (Input AskTotal)) in Hacc; [| reflexivity].
    apply (settled_select_repos w (a :: available)) in Hacc.
    destruct (select_repos w (a :: available) _) as [selected s1].
    cbn [snd] in Hacc.
    apply (settled_budget_loop w selected (Z.of_nat (length selected)) 0
             (reply_total w)) in Hacc.
    eexists. split; [exact Hacc |].
    destruct (conclude w total_commits0 _) as [total s2]. split; reflexivity.
  - apply (settled_select_repos w (a :: available)) in Hacc.
    destruct (select_repos w (a :: available) _) as [selected s1].
    cbn [snd] in Hacc.
    apply (settled_random_loop w selected) in Hacc.
    eexists. split; [exact Hacc |].
    destruct (conclude w total_commits0 _) as [total s2]. split; reflexivity.
Qed.

(** X16: What a batch leaves behind.  With [n] the number of successful commits:
    the module counter [total_commits] is [n] when the batch is kept, 0 when
    it is discarded (whatever it was before), and unchanged when no commit
    succeeded; [changes_made] is [n]; and the statistics are out of it: the
    object is the one that was loaded and the disk is as it was, no commit of
    the batch is recorded in them. *)
Theorem batch_leaves_behind (w : World) (repositories : list string)
    (total_commits0 : Z) :
  let out := process_repositories w repositories total_commits0 in
  let n := Z.of_nat (length (successful_commits (trace (final out)))) in
  global_total_commits out
  = (if 0 <? n then if String.eqb (reply_keep w) "да" then n else 0
     else total_commits0)
  ∧ changes_made (final out) = n
  ∧ final_disk out = disk w
  ∧ stats_object out
    = match load_stats (disk w) with Ok stats => Some stats | Raise _ => None end.
Proof.
  cbv zeta.
  assert (final_disk (process_repositories w repositories total_commits0) = disk w
          ∧ stats_object (process_repositories w repositories total_commits0)
            = match load_stats (disk w) with
              | Ok stats => Some stats
              | Raise _ => None
              end) as [Hdisk Hstats].
  { unfold process_repositories.
    destruct (load_stats (disk w)) as [stats | e]; [| split; reflexivity].
    destruct (access_loop w repositories [] start) as [[| a available] s];
      [split; reflexivity |].
    destruct (conclude w total_commits0 _) as [total s2]. split; reflexivity. }
  destruct (process_repositories_cases w repositories total_commits0)
    as [(Hs & _ & Hc & Hg) | (s & Hsettled & Hfinal & Hg)]; cbv zeta in *.
  - rewrite Hs, Hc, Hg. cbn. repeat split; assumption.
  - destruct (conclude_outcome w total_commits0 s Hsettled)
      as (Hfst & Hsucc & Hch & _).
    cbv zeta in Hfst, Hsucc, Hch.
    rewrite Hg, Hfinal, Hsucc, Hfst, Hch. repeat split; assumption.
Qed.

(** X17: Every call of [reset_changes] goes back by the number of successful
    commits of the whole batch, not by the number made in the repository it
    is called on. *)
Theorem reset_goes_back_by_the_batch_total (w : World)
    (repositories : list string) (total_commits0 : Z) :
  let t := trace (final (process_repositories w repositories total_commits0)) in
  Forall (λ call, snd call = Z.of_nat (length (successful_commits t)))
    (reset_calls t).
Proof.
  cbv zeta.
  destruct (process_repositories_cases w repositories total_commits0)
    as [(_ & Hr & _) | (s & Hsettled & Hfinal & _)]; cbv zeta in *.
  - rewrite Hr. constructor.
  - destruct (conclude_outcome w total_commits0 s Hsettled)
      as (_ & Hsucc & _ & Hcalls).
    cbv zeta in Hsucc, Hcalls. rewrite Hfinal, Hsucc. exact Hcalls.
Qed.

(** In the batch of four commits, two in each of two repositories, both
    resets go back by four. *)
Example reset_of_four_commits :
  reset_calls (trace (final (process_repositories world_four_commits ["A"; "B"] 0)))
  = [("A", 4); ("B", 4)]
  ∧ successful_commits
      (trace (final (process_repositories world_four_commits ["A"; "B"] 0)))
    = ["A"; "A"; "B"; "B"].
Proof. split; vm_compute; reflexivity. Qed.

(** X18: The delay between commits is between 0 and 6 seconds: it can be none at
    all, and it is never negative. *)
Theorem commit_delay_is_between_0_and_6 (w : World) (s : Run) :
  randint_in_range w →
  0 <= fst (get_commit_delay w s) <= 6.
Proof.
  intros Hrand. unfold get_commit_delay, draw_randint. cbn [fst n_randint].
  pose proof (Hrand (n_randint s) 1 5 ltac:(lia)).
  pose proof (Hrand (S (n_randint s)) (-1) 1 ltac:(lia)). lia.
Qed.

Lemma commit_delay_of_smallest_draws :
  fst (get_commit_delay world_offline start) = 0
  ∧ 0 <= fst (get_commit_delay world_offline start) <= 6.
Proof.
  split; [reflexivity |].
  apply (commit_delay_is_between_0_and_6 world_offline start).
  intros k a b Hab. cbn. lia.
Defined.

(** X19: Every candidate is put to [check_access] once, in the order given and
    whatever the earlier verdicts were, and the repositories kept are those
    with a favourable verdict, in the same order, repetitions included. *)
Theorem every_candidate_is_checked_once (w : World)
    (repositories available : list string) (s : Run) :
  let out := access_loop w repositories available s in
  fst out = available ++ filter (λ p, check_access w p = true) repositories
  ∧ access_checks (trace (snd out))
    = access_checks (trace s) ++ ((λ p, (p, check_access w p)) <$> repositories).
Proof.
  cbv zeta. revert available s.
  induction repositories as [| p rest IH]; intros available s.
  { cbn. rewrite !app_nil_r. split; reflexivity. }
  cbn [access_loop].
  destruct (check_access w p) eqn:Hp;
    match goal with
    | |- context [access_loop w rest ?a ?s1] => destruct (IH a s1) as [-> ->]
    end;
    cbn [trace emit log]; unfold access_checks; rewrite !omap_app;
    cbn [omap list_omap fmap list_fmap]; rewrite ?app_nil_r, <- !app_assoc.
  - rewrite filter_cons_True by exact Hp. rewrite Hp. split; reflexivity.
  - rewrite filter_cons_False by congruence. rewrite Hp. split; reflexivity.
Qed.

(** ** Languages and comments *)

(** X20: The extensions [git_commit] accepts are exactly those [get_language]
    knows: a file that can be picked never comes out as ["unknown"], and its
    comment is never the general one; any other file is ["unknown"] and would
    get ["# General update"]. *)
Theorem supported_files_have_a_language (extension_of : string → string)
    (file : string) :
  (supported extension_of file = true
   ↔ get_language extension_of file ≠ "unknown")
  ∧ (supported extension_of file = true
     ↔ get_comment (get_language extension_of file) ≠ "# General update").
Proof.
  unfold supported, get_language, supported_exts. cbv zeta.
  generalize (extension_of file). intros e.
  destruct (String.eqb_spec e ".py") as [-> | H1]; [split; split; done |].
  destruct (String.eqb_spec e ".sql") as [-> | H2]; [split; split; done |].
  destruct (decide (e ∈ [".cpp"; ".hpp"; ".cxx"; ".h"])) as [Hc | Hc].
  { rewrite (bool_decide_eq_true_2 _ Hc).
    assert (e ∈ [".py"; ".sql"; ".cpp"; ".hpp"; ".cxx"; ".h"; ".kt"; ".kts";
                 ".swift"]) as Hin
      by (revert Hc; rewrite !elem_of_cons, !elem_of_nil; tauto).
    rewrite (bool_decide_eq_true_2 _ Hin). split; split; done. }
  rewrite (bool_decide_eq_false_2 _ Hc).
  destruct (decide (e ∈ [".kt"; ".kts"])) as [Hk | Hk].
  { rewrite (bool_decide_eq_true_2 _ Hk).
    assert (e ∈ [".py"; ".sql"; ".cpp"; ".hpp"; ".cxx"; ".h"; ".kt"; ".kts";
                 ".swift"]) as Hin
      by (revert Hk; rewrite !elem_of_cons, !elem_of_nil; tauto).
    rewrite (bool_decide_eq_true_2 _ Hin). split; split; done. }
  rewrite (bool_decide_eq_false_2 _ Hk).
  destruct (String.eqb_spec e ".swift") as [-> | H5]; [split; split; done |].
  assert (e ∉ [".py"; ".sql"; ".cpp"; ".hpp"; ".cxx"; ".h"; ".kt"; ".kts";
               ".swift"]) as Hout
    by (revert Hc Hk; rewrite !elem_of_cons, !elem_of_nil; tauto).
  rewrite (bool_decide_eq_false_2 _ Hout). split; split; done.
Qed.

(** ** The report's peak *)

Lemma list_max_spec (l : list Z) (m : Z) :
  list_max l = Some m →
  m ∈ l ∧ ∀ x : Z, x ∈ l → x <= m.
Proof.
  revert m. induction l as [| x l IH]; intros m; [discriminate |].
  cbn [list_max]. destruct (list_max l) as [m' |] eqn:Hm'.
  - destruct (IH m' eq_refl) as [Hin Hle]. intros [= <-].
    destruct (Z.ltb_spec m' x); [| destruct (Z.ltb_spec x m')].
    + split; [left |]. intros y [-> | Hy]%elem_of_cons; [lia |].
      specialize (Hle y Hy). lia.
    + split; [right; exact Hin |]. intros y [-> | Hy]%elem_of_cons; [lia |].
      exact (Hle y Hy).
    + assert (x = m') as -> by lia.
      split; [left |]. intros y [-> | Hy]%elem_of_cons; [lia |].
      exact (Hle y Hy).
  - intros [= <-]. destruct l as [| y l]; [| cbn in Hm'; destruct (list_max l); discriminate].
    split; [left |]. intros y [-> | Hy]%elem_of_cons; [lia |].
    inversion Hy.
Qed.

Lemma list_index_spec (x : Z) (l : list Z) :
  x ∈ l →
  ∃ i : nat,
    list_index x l = Some i
    ∧ l !! i = Some x
    ∧ ∀ (j : nat) (y : Z), (j < i)%nat → l !! j = Some y → y ≠ x.
Proof.
  induction l as [| y l IH]; intros Hin; [inversion Hin |].
  cbn [list_index]. destruct (Z.eqb_spec y x) as [-> | Hne].
  - exists O. repeat split. intros j z Hj. lia.
  - apply elem_of_cons in Hin as [-> | Hin]; [congruence |].
    destruct (IH Hin) as (i & -> & Hi & Hfirst).
    exists (S i). split; [reflexivity |]. split; [exact Hi |].
    intros [| j] z Hj Hz; cbn in Hz; [congruence |].
    apply (Hfirst j z); [lia | exact Hz].
Qed.

(** X21: The peak hour (or week day) of the report is the earliest position where
    the counter is highest: no counter is higher, and every earlier one is
    strictly lower.  On an empty list of counters the report raises. *)
Theorem peak_is_the_earliest_maximum (l : list Z) :
  match peak l with
  | Raise e => l = [] ∧ e = ValueError
  | Ok i =>
      ∃ m : Z,
        l !! i = Some m
        ∧ (∀ (j : nat) (x : Z), l !! j = Some x → x <= m)
        ∧ (∀ (j : nat) (x : Z), (j < i)%nat → l !! j = Some x → x < m)
  end.
Proof.
  unfold peak. destruct (list_max l) as [m |] eqn:Hm.
  - destruct (list_max_spec l m Hm) as [Hin Hle].
    destruct (list_index_spec m l Hin) as (i & -> & Hi & Hfirst).
    exists m. split; [exact Hi |]. split.
    + intros j x Hx. apply Hle. exact (list_elem_of_lookup_2 _ _ _ Hx).
    + intros j x Hj Hx.
      pose proof (Hle x (list_elem_of_lookup_2 _ _ _ Hx)).
      pose proof (Hfirst j x Hj Hx). lia.
  - destruct l as [| x l]; [split; reflexivity |].
    cbn in Hm. destruct (list_max l); discriminate.
Qed.

(** ** The pattern scan *)

Lemma greedy_rest (c : N → bool) (k : text → option text) (s rest : text) :
  (∀ s' r : text, k s' = Some r → (length r <= length s')%nat) →
  greedy c k s = Some rest → (length rest <= length s)%nat.
Proof.
  intros Hk. induction s as [| a s IH]; cbn [greedy]; [apply Hk |].
  destruct (c a); [| apply Hk].
  destruct (greedy c k s) as [r |] eqn:Hg.
  - intros [= <-]. specialize (IH eq_refl). cbn. lia.
  - apply Hk.
Qed.

Lemma match_lit_rest (l s rest : text) :
  match_lit l s = Some rest → (length rest + length l = length s)%nat.
Proof.
  revert s. induction l as [| a l IH]; intros s; cbn [match_lit].
  { intros [= <-]. cbn. lia. }
  destruct s as [| b s]; [discriminate |].
  destruct (N.eqb a b); [| discriminate].
  intros H. specialize (IH s H). cbn. lia.
Qed.

Lemma first_alt_rest (alts : list text) (k : text → option text) (s rest : text) :
  (∀ s' r : text, k s' = Some r → (length r <= length s')%nat) →
  first_alt alts k s = Some rest → (length rest <= length s)%nat.
Proof.
  intros Hk. induction alts as [| l alts IH]; cbn [first_alt]; [discriminate |].
  destruct (match_lit l s) as [s1 |] eqn:Hl; cbn [mbind option_bind]; [| exact IH].
  destruct (k s1) as [r |] eqn:Hr; [| exact IH].
  intros [= <-]. specialize (Hk s1 r Hr).
  pose proof (match_lit_rest l s s1 Hl). lia.
Qed.

Lemma match_here_rest (p : list item) :
  ∀ s rest : text, match_here p s = Some rest → (length rest <= length s)%nat.
Proof.
  induction p as [| it p IH]; intros s rest; cbn [match_here].
  { intros [= <-]. lia. }
  destruct it as [l | alts | c | c | c].
  - destruct (match_lit l s) as [s1 |] eqn:Hl; cbn [mbind option_bind];
      [| discriminate].
    intros H. specialize (IH s1 rest H).
    pose proof (match_lit_rest l s s1 Hl). lia.
  - apply first_alt_rest. exact IH.
  - destruct s as [| a s]; [discriminate |]. destruct (c a); [| discriminate].
    intros H. specialize (IH s rest H). cbn. lia.
  - apply greedy_rest. exact IH.
  - destruct s as [| a s]; [discriminate |]. destruct (c a); [| discriminate].
    intros H. pose proof (greedy_rest c (match_here p) s rest IH H). cbn. lia.
Qed.

Lemma findall_count_bounds (p : list item) (s : text) :
  ∀ skip : nat, 0 <= findall_count p skip s <= Z.of_nat (length s).
Proof.
  induction s as [| a s IH]; intros skip; cbn [findall_count length]; [lia |].
  destruct skip as [| k]; [| specialize (IH k); lia].
  destruct (match_here p (a :: s)) as [rest |].
  - match goal with
    | |- context [findall_count p ?k s] => specialize (IH k)
    end. lia.
  - specialize (IH O). lia.
Qed.

Lemma splitlines_at_linebreak (line : text) (c : N) (s : text) :
  ∃ s' : text,
    (length s' <= length s)%nat
    ∧ (if is_linebreak c
       then splitlines line (c :: s) = rev line :: splitlines [] s'
       else True).
Proof.
  destruct (is_linebreak c) eqn:Hc; [| exists s; split; [lia | exact I]].
  assert (splitlines line (c :: s)
          = match c, s with
            | 13%N, 10%N :: s'' => rev line :: splitlines [] s''
            | _, _ => rev line :: splitlines [] s
            end) as ->
    by (cbn [splitlines]; rewrite Hc; reflexivity).
  destruct c as [| pc]; [exists s; split; [lia | reflexivity] |].
  repeat (destruct pc as [pc | pc |];
          try (exists s; split; [lia | reflexivity])).
  destruct s as [| d s]; [exists []; split; [lia | reflexivity] |].
  destruct d as [| pd]; [exists (0%N :: s); split; [lia | reflexivity] |].
  repeat (destruct pd as [pd | pd |];
          try (eexists (_ :: s); split; [apply Nat.le_refl | reflexivity])).
  exists s. split; [cbn; lia | reflexivity].
Qed.

Lemma splitlines_length_upto (n : nat) :
  ∀ s line : text,
    (length s <= n)%nat →
    (length (splitlines line s) <= length line + length s)%nat.
Proof.
  induction n as [| n IH]; intros s line Hn.
  { destruct s; [| cbn in Hn; lia]. destruct line; cbn; lia. }
  destruct s as [| c s]; [destruct line; cbn; lia |].
  destruct (splitlines_at_linebreak line c s) as (s' & Hs' & Hstep).
  destruct (is_linebreak c) eqn:Hc.
  - rewrite Hstep. cbn [length] in *.
    specialize (IH s' [] ltac:(lia)). cbn [length] in IH. lia.
  - cbn [splitlines]. rewrite Hc. cbn [length] in *.
    specialize (IH s (c :: line) ltac:(lia)). cbn [length] in IH. lia.
Qed.

Lemma splitlines_length (s line : text) :
  (length (splitlines line s) <= length line + length s)%nat.
Proof. apply (splitlines_length_upto (length s)). lia. Qed.

(** X22: The five counts of the scan are never negative and never exceed the
    number of characters of the text, so a file that can exist is far from
    the range where their conversion to [float] would round. *)
Theorem scan_counts_are_bounded (isspace isalnum : N → bool) (content : text) :
  let c := scan isspace isalnum content in
  let n := Z.of_nat (length content) in
  0 <= c_lines c <= n
  ∧ 0 <= c_functions c <= n
  ∧ 0 <= c_classes c <= n
  ∧ 0 <= c_conditionals c <= n
  ∧ 0 <= c_loops c <= n.
Proof.
  cbv zeta. unfold scan.
  cbn [c_lines c_functions c_classes c_conditionals c_loops].
  pose proof (splitlines_length content []) as Hl. cbn [length] in Hl.
  repeat split; try apply findall_count_bounds; lia.
Qed.

Lemma findall_count_no_match (p : list item) (P : text → Prop) (s : text) :
  (∀ (a : N) (s' : text), P (a :: s') → P s') →
  (∀ s' : text, P s' → match_here p s' = None) →
  P s → ∀ skip : nat, findall_count p skip s = 0.
Proof.
  intros Htail Hnone. induction s as [| a s IH]; intros Hs skip; [reflexivity |].
  cbn [findall_count]. destruct skip as [| k].
  - rewrite (Hnone _ Hs). apply IH. exact (Htail _ _ Hs).
  - apply IH. exact (Htail _ _ Hs).
Qed.

Lemma match_lit_suffix (P : N → Prop) (l s rest : text) :
  match_lit l s = Some rest → Forall P s → Forall P rest.
Proof.
  revert s. induction l as [| a l IH]; intros s; cbn [match_lit].
  { intros [= <-]. trivial. }
  destruct s as [| b s]; [discriminate |].
  destruct (N.eqb a b); [| discriminate].
  intros H Hs. apply (IH s H). exact (Forall_inv_tail Hs).
Qed.

Lemma plus_needs_its_class (c : N → bool) (p : list item) (s : text) :
  Forall (λ a, c a = false) s → match_here (Plus c :: p) s = None.
Proof.
  intros Hs. cbn [match_here]. destruct s as [| a s]; [reflexivity |].
  rewrite (Forall_inv Hs). reflexivity.
Qed.

Lemma lit_plus_needs_its_class (c : N → bool) (l : text) (p : list item)
    (s : text) :
  Forall (λ a, c a = false) s → match_here (Lit l :: Plus c :: p) s = None.
Proof.
  intros Hs.
  change (match_here (Lit l :: Plus c :: p) s)
    with (match_lit l s ≫= match_here (Plus c :: p)).
  destruct (match_lit l s) as [s1 |] eqn:Hl; [| reflexivity].
  cbn [mbind option_bind]. apply plus_needs_its_class.
  exact (match_lit_suffix _ _ _ _ Hl Hs).
Qed.

(** X23: The four patterns all ask for white space: a keyword that is not
    set off by it is not counted, and a text without any white space
    character has no function, class, conditional or loop for the scan,
    whatever it says. *)
Theorem scan_needs_white_space (isspace isalnum : N → bool) (content : text) :
  Forall (λ a, isspace a = false) content →
  let c := scan isspace isalnum content in
  c_functions c = 0 ∧ c_classes c = 0 ∧ c_conditionals c = 0 ∧ c_loops c = 0.
Proof.
  intros Hs. cbv zeta. unfold scan.
  cbn [c_functions c_classes c_conditionals c_loops].
  assert (∀ (a : N) (s' : text),
            Forall (λ a, isspace a = false) (a :: s') →
            Forall (λ a, isspace a = false) s') as Htail
    by (intros a s' H; exact (Forall_inv_tail H)).
  repeat split;
    apply (findall_count_no_match _ (Forall (λ a, isspace a = false)));
    try exact Htail; try exact Hs; intros s' Hs'.
  - apply (lit_plus_needs_its_class (class_s isspace)). exact Hs'.
  - apply (lit_plus_needs_its_class (class_s isspace)). exact Hs'.
  - apply (plus_needs_its_class (class_s isspace)). exact Hs'.
  - apply (plus_needs_its_class (class_s isspace)). exact Hs'.
Qed.

(** A conditional with nothing before it: the statement is not counted. *)
Lemma scan_misses_a_leading_if :
  let c := scan ascii_isspace ascii_isalnum (codepoints "if(x):pass") in
  c_functions c = 0 ∧ c_classes c = 0 ∧ c_conditionals c = 0 ∧ c_loops c = 0.
Proof.
  apply (scan_needs_white_space ascii_isspace ascii_isalnum
           (codepoints "if(x):pass")).
  vm_compute. repeat constructor.
Defined.

(** ** Changing a file *)

Lemma append_assoc (a b c : string) :
  String.append (String.append a b) c = String.append a (String.append b c).
Proof.
  induction a as [| x a IH]; [reflexivity |].
  change (String x (String.append (String.append a b) c)
          = String x (String.append a (String.append b c))).
  f_equal. exact IH.
Qed.

Lemma append_empty (a : string) : String.append a EmptyString = a.
Proof.
  induction a as [| x a IH]; [reflexivity |].
  change (String x (String.append a EmptyString) = String x a). f_equal. exact IH.
Qed.

Lemma writelines_cons (l : string) (ls : list string) :
  writelines (l :: ls) = String.append l (writelines ls).
Proof. reflexivity. Qed.

Lemma writelines_app (l1 l2 : list string) :
  writelines (l1 ++ l2) = String.append (writelines l1) (writelines l2).
Proof.
  induction l1 as [| l l1 IH]; [reflexivity |].
  cbn [app]. rewrite !writelines_cons, IH, append_assoc. reflexivity.
Qed.

(** Writing back the lines that were read gives the text that was read. *)
Lemma writelines_readlines (s : string) : writelines (readlines s) = s.
Proof.
  induction s as [| c s IH]; [reflexivity |].
  cbn [readlines]. destruct (Ascii.eqb c newline).
  - rewrite writelines_cons, IH. reflexivity.
  - destruct (readlines s) as [| l ls].
    + cbn in IH. subst s. reflexivity.
    + rewrite writelines_cons in *. rewrite <- IH. reflexivity.
Qed.

Lemma ends_with_newline_cons (c : ascii) (s : string) :
  ends_with_newline s = true → ends_with_newline (String c s) = true.
Proof. destruct s; [discriminate | trivial]. Qed.

Lemma ends_with_newline_append (a b : string) :
  ends_with_newline b = true →
  ends_with_newline (String.append a b) = true.
Proof.
  intros Hb. induction a as [| x a IH]; [exact Hb |].
  change (ends_with_newline (String x (String.append a b)) = true).
  apply ends_with_newline_cons. exact IH.
Qed.

Lemma closed_readlines (s : string) : closed_lines (readlines s).
Proof.
  induction s as [| c s IH]; [exact I |].
  cbn [readlines]. destruct (Ascii.eqb c newline) eqn:Hc.
  - split; [right; cbn; exact Hc | exact IH].
  - destruct (readlines s) as [| l ls]; [split; [left; reflexivity | exact I] |].
    destruct IH as [[-> | Hl] Hls].
    + split; [left; reflexivity | exact I].
    + split; [right; apply ends_with_newline_cons; exact Hl | exact Hls].
Qed.

Lemma closed_lines_take (lines : list string) :
  closed_lines lines →
  ∀ k : nat, (k < length lines)%nat →
    Forall (λ l, ends_with_newline l = true) (take k lines).
Proof.
  induction lines as [| l ls IH]; intros Hc k Hk; [cbn in Hk; lia |].
  destruct k as [| k]; [constructor |].
  destruct Hc as [[-> | Hl] Hls]; [cbn in Hk; lia |].
  cbn [take]. constructor; [exact Hl |]. apply IH; [exact Hls | cbn in Hk; lia].
Qed.

Lemma writelines_ends_with_newline (lines : list string) :
  lines ≠ [] →
  Forall (λ l, ends_with_newline l = true) lines →
  ends_with_newline (writelines lines) = true.
Proof.
  induction lines as [| l ls IH]; intros Hne Hall; [congruence |].
  rewrite writelines_cons. destruct ls as [| l' ls].
  - cbn. rewrite append_empty. exact (Forall_inv Hall).
  - apply ends_with_newline_append, IH; [discriminate |].
    exact (Forall_inv_tail Hall).
Qed.

(** X24: On a file that can be read and written, [make_minimal_change] returns
    [True] and leaves the old text whole with its one line added: the new
    text is [before ++ line ++ after] where [before ++ after] is the old
    text, and the cut falls between two lines (or at either end of the
    text), never inside a line.  No other file changes. *)
Theorem make_minimal_change_adds_a_line (w : World) (now : string)
    (fs : gmap string textfile) (file_path language : string) (s : Run)
    (f : textfile) :
  randint_in_range w →
  fs !! file_path = Some f →
  file_readable f = true →
  file_writable f = true →
  let out := make_minimal_change w now fs file_path language s in
  ∃ before after : string,
    file_text f = String.append before after
    ∧ (before = EmptyString ∨ after = EmptyString
       ∨ ends_with_newline before = true)
    ∧ snd (fst (fst out)) = true
    ∧ fst (fst (fst out))
      = <[file_path :=
            {| file_text :=
                 String.append before
                   (String.append (inserted_line language now) after);
               file_readable := true;
               file_writable := true |}]> fs
    ∧ ∀ q : string, q ≠ file_path → fst (fst (fst out)) !! q = fs !! q.
Proof.
  intros Hrand Hf Hr Hw. cbv zeta. unfold make_minimal_change, draw_randint.
  rewrite Hf, Hr, Hw. cbn [negb fst snd].
  set (lines := readlines (file_text f)).
  set (n := Z.of_nat (length lines)).
  pose proof (Hrand (n_randint s) 0 (Z.max n 1) ltac:(lia)) as Hpos.
  set (i := randint w (n_randint s) 0 (Z.max n 1)) in *.
  unfold py_insert. fold n.
  destruct (Z.ltb_spec i 0) as [Hneg | _]; [lia |].
  set (k := Z.to_nat (Z.min i n)).
  exists (writelines (take k lines)), (writelines (drop k lines)).
  split.
  { rewrite <- writelines_app, take_drop. subst lines.
    symmetry. apply writelines_readlines. }
  split.
  { destruct (decide (k = O)) as [-> | Hk0]; [left; reflexivity |].
    destruct (decide (k < length lines)%nat) as [Hlt | Hge].
    - right; right. apply writelines_ends_with_newline.
      + destruct lines; [cbn in Hlt; lia |]. destruct k; [lia | discriminate].
      + apply closed_lines_take; [apply closed_readlines | exact Hlt].
    - right; left. rewrite drop_ge by lia. reflexivity. }
  split; [reflexivity |].
  split.
  { rewrite writelines_app, writelines_cons. reflexivity. }
  intros q Hq. apply lookup_insert_ne. congruence.
Qed.

Lemma make_minimal_change_adds_a_line_witness :
  let out := make_minimal_change world_budget5 "2024-01-01 09:00:00" sample_fs
               "main.py" "python" start in
  ∃ before after : string,
    file_text two_line_file = String.append before after
    ∧ (before = EmptyString ∨ after = EmptyString
       ∨ ends_with_newline before = true)
    ∧ snd (fst (fst out)) = true
    ∧ fst (fst (fst out))
      = <["main.py" :=
            {| file_text :=
                 String.append before
                   (String.append (inserted_line "python" "2024-01-01 09:00:00")
                      after);
               file_readable := true;
               file_writable := true |}]> sample_fs
    ∧ ∀ q : string, q ≠ "main.py" → fst (fst (fst out)) !! q = sample_fs !! q.
Proof.
  apply (make_minimal_change_adds_a_line world_budget5 "2024-01-01 09:00:00"
           sample_fs "main.py" "python" start two_line_file).
  - intros k a b Hab. destruct k; cbn; lia.
  - reflexivity.
  - reflexivity.
  - reflexivity.
Defined.


(** ** The batch: where commits can land *)

Lemma commit_loop_attempts (w : World) (repo_path : string) (todo : nat) (j : Z)
    (s : Run) (p : string) :
  p ∈ commit_attempts (trace (commit_loop w repo_path todo j s)) →
  p ∈ commit_attempts (trace s) ∨ p = repo_path.
Proof.
  destruct (commit_loop_run w repo_path todo j s) as (_ & Ha & _).
  cbv zeta in Ha. rewrite Ha, elem_of_app, elem_of_replicate. tauto.
Qed.

Lemma budget_loop_attempts (w : World) (repos : list string) (p : string) :
  ∀ (len i remaining : Z) (s : Run),
    p ∈ commit_attempts (trace (budget_loop w len i repos remaining s)) →
    p ∈ commit_attempts (trace s) ∨ p ∈ repos.
Proof.
  induction repos as [| repo_path rest IH]; intros len i remaining s;
    cbn [budget_loop]; [tauto |].
  destruct (i =? len - 1).
  - intros [H | H]%IH; [| right; right; exact H].
    apply commit_loop_attempts in H as [H | ->]; [| right; left].
    revert H. read_trace. tauto.
  - destruct (_ <=? 0).
    + intros [H | H]%IH; [left; exact H | right; right; exact H].
    + unfold draw_randint.
      intros [H | H]%IH; [| right; right; exact H].
      apply commit_loop_attempts in H as [H | ->]; [| right; left].
      revert H. read_trace. tauto.
Qed.

Lemma random_loop_attempts (w : World) (repos : list string) (p : string) :
  ∀ s : Run,
    p ∈ commit_attempts (trace (random_loop w repos s)) →
    p ∈ commit_attempts (trace s) ∨ p ∈ repos.
Proof.
  induction repos as [| repo_path rest IH]; intros s; cbn [random_loop];
    [tauto |].
  unfold calculate_commits.
  intros [H | H]%IH; [| right; right; exact H].
  apply commit_loop_attempts in H as [H | ->]; [| right; left].
  revert H. read_trace. tauto.
Qed.

Lemma select_repos_attempts (w : World) (available : list string) (s : Run) :
  commit_attempts (trace (snd (select_repos w available s)))
  = commit_attempts (trace s).
Proof.
  unfold select_repos, draw_randint. cbn [snd].
  match goal with
  | |- commit_attempts (trace (foldl _ ?s0 ?l)) = _ =>
      assert (commit_attempts (trace s0) = commit_attempts (trace s)) as <-
        by (read_trace; reflexivity);
      generalize s0; generalize l
  end.
  intros l. induction l as [| repo rest IH]; intros s0; [reflexivity |].
  cbn [foldl]. rewrite IH. read_trace. reflexivity.
Qed.

Lemma rollback_loop_attempts (w : World) (repos : list string) (s : Run) :
  commit_attempts (trace (rollback_loop w repos s)) = commit_attempts (trace s).
Proof.
  revert s. induction repos as [| repo_path rest IH]; intros s; [reflexivity |].
  cbn [rollback_loop]. unfold reset_changes.
  destruct (git_reset w repo_path (changes_made s)); rewrite IH; read_trace;
    reflexivity.
Qed.

Lemma conclude_attempts (w : World) (total_commits0 : Z) (s : Run) :
  commit_attempts (trace (snd (conclude w total_commits0 s)))
  = commit_attempts (trace s).
Proof.
  unfold conclude.
  destruct (0 <? changes_made s); [| cbn [snd]; read_trace; reflexivity].
  destruct (negb _); cbn [snd]; read_trace; [| reflexivity].
  rewrite rollback_loop_attempts. read_trace. reflexivity.
Qed.

(** X26: [git_commit] is only ever called on a repository of the list that
    passed the access check. *)
Theorem commits_only_reach_accessible_repositories (w : World)
    (repositories : list string) (total_commits0 : Z) :
  sample_from_population w →
  ∀ repo_path : string,
    repo_path ∈ commit_attempts
                  (trace (final (process_repositories w repositories total_commits0))) →
    repo_path ∈ repositories ∧ check_access w repo_path = true.
Proof.
  intros Hsample repo_path. unfold process_repositories.
  destruct (load_stats (disk w)) as [stats | e]; [| intros H; inversion H].
  pose proof (access_loop_available w repositories [] start) as Havail.
  pose proof (access_loop_untouched w repositories [] start untouched_start)
    as (Hnone & _).
  destruct (access_loop w repositories [] start) as [available s].
  cbn [fst snd app] in Havail, Hnone.
  destruct available as [| a available].
  { cbn [final]. read_trace. rewrite Hnone. intros H. inversion H. }
  assert (∀ selected : list string, selected ⊆ a :: available →
            repo_path ∈ selected →
            repo_path ∈ repositories ∧ check_access w repo_path = true)
    as Hsel.
  { intros selected Hsub Hin. apply Hsub in Hin. rewrite Havail in Hin.
    apply list_elem_of_filter in Hin as [Hok Hin]. split; assumption. }
  assert (∀ s0 : Run, commit_attempts (trace s0) = [] →
            commit_attempts (trace (snd (select_repos w (a :: available) s0))) = [])
    as Hquiet by (intros s0 H0; rewrite select_repos_attempts; exact H0).
  destruct (String.eqb (reply_commit_control w) "да").
  - specialize (Hquiet (emit (Input AskTotal) (emit (Input AskCommitControl) s))).
    assert (fst (select_repos w (a :: available)
                   (emit (Input AskTotal) (emit (Input AskCommitControl) s)))
            ⊆ a :: available) as Hsub
      by (unfold select_repos, draw_randint; cbn [fst]; apply Hsample).
    destruct (select_repos w (a :: available) _) as [selected s1].
    cbn [fst snd] in Hquiet, Hsub.
    pose proof (conclude_attempts w total_commits0
                  (budget_loop w (Z.of_nat (length selected)) 0 selected
                     (reply_total w) s1)) as Hconc.
    destruct (conclude w total_commits0 _) as [total s2].
    cbn [final snd] in *. rewrite Hconc.
    intros [H | H]%budget_loop_attempts; [| exact (Hsel selected Hsub H)].
    rewrite Hquiet in H; [inversion H |]. read_trace. exact Hnone.
  - specialize (Hquiet (emit (Input AskCommitControl) s)).
    assert (fst (select_repos w (a :: available)
                   (emit (Input AskCommitControl) s))
            ⊆ a :: available) as Hsub
      by (unfold select_repos, draw_randint; cbn [fst]; apply Hsample).
    destruct (select_repos w (a :: available) _) as [selected s1].
    cbn [fst snd] in Hquiet, Hsub.
    pose proof (conclude_attempts w total_commits0 (random_loop w selected s1))
      as Hconc.
    destruct (conclude w total_commits0 _) as [total s2].
    cbn [final snd] in *. rewrite Hconc.
    intros [H | H]%random_loop_attempts; [| exact (Hsel selected Hsub H)].
    rewrite Hquiet in H; [inversion H |]. read_trace. exact Hnone.
Qed.

Lemma commits_only_reach_accessible_repositories_witness :
  commit_attempts
    (trace (final (process_repositories world_half_reachable ["A"; "B"] 0)))
    = ["A"; "A"]
  ∧ "A" ∈ ["A"; "B"]
  ∧ check_access world_half_reachable "A" = true.
Proof.
  assert (commit_attempts
            (trace (final (process_repositories world_half_reachable ["A"; "B"] 0)))
          = ["A"; "A"]) as Hattempts by (vm_compute; reflexivity).
  split; [exact Hattempts |].
  apply (commits_only_reach_accessible_repositories world_half_reachable
           ["A"; "B"] 0).
  - intros population k. apply subseteq_take.
  - rewrite Hattempts. left.
Defined.
